(** * bike_mapper: the map front end (selection, hover, route requests)

    A shallow embedding of the browser script of the Mapbox front end, in
    its latest version (grouped paths with hierarchies, the route-info
    panel): the script's global variables, the part of the map object and of
    the page it reads and writes, and one function per event handler.  The
    browser delivers events one at a time and every handler runs to its
    end, so a run of the page is a fold of the handlers over a list of
    events; a [fetch] that was started settles as an event of its own.

    What the script uses and does not define is modelled by its interface:
    - the map (Mapbox GL): a store of feature states keyed by the feature id
      as the script passes it, a cursor style, the data of the route source
      and the listeners registered with [once];
    - the page: the generate button, the route-info panel with its two text
      elements, and the slider, all present under the ids the script looks
      up;
    - the grouped-paths dataset and the response of the route service, in
      the shapes the script tells apart.
    [console.log] is left out. *)

From Stdlib Require Import ZArith QArith Qround Floats Ascii DecimalString
  DecimalN Lia.
From stdpp Require Import gmap strings list.

Local Open Scope Z_scope.
Local Open Scope string_scope.

(** ** Values *)

(** A feature identifier as JSON carries it: a number (the OSM id copied
    from [properties.id]) or a string.  [===] is equality of the two
    variants; a number never equals a string. *)
Inductive ident :=
| IdNum (n : Z)
| IdStr (s : string).

#[global] Instance ident_eq_dec : EqDecision ident.
Proof. solve_decision. Defined.

#[global] Instance ident_countable : Countable ident.
Proof.
  refine (inj_countable'
            (fun i => match i return Z + string with
                      | IdNum n => inl n
                      | IdStr s => inr s
                      end)
            (fun x => match x with inl n => IdNum n | inr s => IdStr s end) _).
  intros []; reflexivity.
Defined.

(** [if (x.id)]: [0] and the empty string are falsy. *)
Definition truthy (i : ident) : bool :=
  match i with
  | IdNum n => negb (n =? 0)%Z
  | IdStr s => negb (bool_decide (s = ""))
  end.

(** [e.lngLat.toArray()]: a pair of JS numbers. *)
Definition lnglat : Type := float * float.

(** An entry of the [features] array: [{id: ..., coordinates: ...}], with
    [coordinates: null] as [None]. *)
Record feature := Feature {
  f_id : ident;
  coordinates : option lnglat
}.

(** Geometry handed to [setData]: a feature collection, each feature a
    line of points. *)
Definition feature_collection : Type := list (list lnglat).

(** ** The grouped-paths dataset ([data/grouped_paths.json]) *)

(** A member of a path group: an object that may carry an [id]. *)
Record member := Member { m_id : option ident }.

(** An entry of a path group: a member, or a nested array of members. *)
Inductive item :=
| ItemMember (m : member)
| ItemNested (sub : list member).

(** The value stored under a group name: an array, or something else. *)
Inductive path_value :=
| PathArray (items : list item)
| PathOther.

(** [groupedPaths]: [{}] until the dataset is loaded, then an object that
    may have a [hierarchy] and a [paths] member. *)
Record grouped := Grouped {
  hierarchy : option (gmap string (list string));
  paths : option (gmap string path_value)
}.

(** What [obj[key]] evaluates to on an object parsed from JSON: its own
    member, or a member every object inherits from [Object.prototype]
    (a function, or the prototype itself for [__proto__]), or
    [undefined]. *)
Inductive property (V : Type) :=
| Own (v : V)
| Inherited
| Undefined.
Arguments Own {V} v.
Arguments Inherited {V}.
Arguments Undefined {V}.

Definition Object_prototype_keys : list string :=
  [ "constructor"; "hasOwnProperty"; "isPrototypeOf"; "propertyIsEnumerable";
    "toLocaleString"; "toString"; "valueOf"; "__proto__";
    "__defineGetter__"; "__defineSetter__"; "__lookupGetter__";
    "__lookupSetter__" ].

Definition get_property {V} (o : gmap string V) (key : string) : property V :=
  match o !! key with
  | Some v => Own v
  | None => if bool_decide (key ∈ Object_prototype_keys) then Inherited
            else Undefined
  end.

(** ** The map surface *)

(** The feature state of one feature: the keys set so far. *)
Record fstate := FState {
  hover : option bool;
  selected : option bool
}.

Definition merge_fstate (patch old : fstate) : fstate :=
  {| hover := match hover patch with Some b => Some b | None => hover old end;
     selected := match selected patch with
                 | Some b => Some b
                 | None => selected old
                 end |}.

(** A call the script makes on the map's feature states. *)
Record call := SetFeatureState { call_id : ident; call_state : fstate }.

(** The role of a marker a pending [map.once('click', ...)] will place. *)
Inductive role := StartRole | EndRole.

(** ** Route requests *)

(** The JSON body of the POST. *)
Record request := Request {
  req_start : lnglat;
  req_end : lnglat;
  following_weight : string;
  preferred_routes : list ident
}.

(** The body of a successful response, as [generateRoute] tells the two
    shapes apart: an object with a [geojson] member and the two metrics, or
    anything else (a bare feature collection).  A metric that is missing
    reads as [undefined], which every use in [showRouteInfo] turns into
    [nan]. *)
Inductive route_body :=
| WithGeojson (geojson : feature_collection)
              (distance_meters travel_time_seconds : float)
| Bare (fc : feature_collection).

(** How a [fetch] settles: the request fails, or a response arrives with
    a status and a body that parses as JSON or does not. *)
Inductive settlement :=
| NetworkError
| Response (status : Z) (body : option route_body).

(** What index.html gives the controls when the page loads. *)
Record controls := Controls {
  slider0 : string;
  button_text0 : string;
  routeInfo_hidden0 : bool
}.

(** ** The state of the page *)

Record world := World {
  (* the script's globals *)
  features : list feature;
  startPoint : option lnglat;
  endPoint : option lnglat;
  groupedPaths : grouped;
  hoveredFeatureId : option ident;
  previous_cursor : string;
  (* the map *)
  featureState : gmap ident fstate;
  calls : list call;
  cursor : string;
  route : feature_collection;
  once_click : list role;
  (* the page *)
  button_pulsing : bool;
  button_disabled : bool;
  button_text : string;
  routeInfo_hidden : bool;
  routeDistance : string;
  routeTime : string;
  slider : string;
  (* the outside *)
  alerts : list string;
  in_flight : list request;
  dispatched : nat
}.

(** Assignment to one component of the state. *)

Definition set_features v (w : world) : world :=
  World v (startPoint w) (endPoint w) (groupedPaths w) (hoveredFeatureId w)
    (previous_cursor w) (featureState w) (calls w) (cursor w) (route w)
    (once_click w) (button_pulsing w) (button_disabled w) (button_text w)
    (routeInfo_hidden w) (routeDistance w) (routeTime w) (slider w)
    (alerts w) (in_flight w) (dispatched w).

Definition set_startPoint v (w : world) : world :=
  World (features w) v (endPoint w) (groupedPaths w) (hoveredFeatureId w)
    (previous_cursor w) (featureState w) (calls w) (cursor w) (route w)
    (once_click w) (button_pulsing w) (button_disabled w) (button_text w)
    (routeInfo_hidden w) (routeDistance w) (routeTime w) (slider w)
    (alerts w) (in_flight w) (dispatched w).

Definition set_endPoint v (w : world) : world :=
  World (features w) (startPoint w) v (groupedPaths w) (hoveredFeatureId w)
    (previous_cursor w) (featureState w) (calls w) (cursor w) (route w)
    (once_click w) (button_pulsing w) (button_disabled w) (button_text w)
    (routeInfo_hidden w) (routeDistance w) (routeTime w) (slider w)
    (alerts w) (in_flight w) (dispatched w).

Definition set_groupedPaths v (w : world) : world :=
  World (features w) (startPoint w) (endPoint w) v (hoveredFeatureId w)
    (previous_cursor w) (featureState w) (calls w) (cursor w) (route w)
    (once_click w) (button_pulsing w) (button_disabled w) (button_text w)
    (routeInfo_hidden w) (routeDistance w) (routeTime w) (slider w)
    (alerts w) (in_flight w) (dispatched w).

Definition set_hoveredFeatureId v (w : world) : world :=
  World (features w) (startPoint w) (endPoint w) (groupedPaths w) v
    (previous_cursor w) (featureState w) (calls w) (cursor w) (route w)
    (once_click w) (button_pulsing w) (button_disabled w) (button_text w)
    (routeInfo_hidden w) (routeDistance w) (routeTime w) (slider w)
    (alerts w) (in_flight w) (dispatched w).

Definition set_previous_cursor v (w : world) : world :=
  World (features w) (startPoint w) (endPoint w) (groupedPaths w)
    (hoveredFeatureId w) v (featureState w) (calls w) (cursor w) (route w)
    (once_click w) (button_pulsing w) (button_disabled w) (button_text w)
    (routeInfo_hidden w) (routeDistance w) (routeTime w) (slider w)
    (alerts w) (in_flight w) (dispatched w).

Definition set_featureState v (w : world) : world :=
  World (features w) (startPoint w) (endPoint w) (groupedPaths w)
    (hoveredFeatureId w) (previous_cursor w) v (calls w) (cursor w)
    (route w) (once_click w) (button_pulsing w) (button_disabled w)
    (button_text w) (routeInfo_hidden w) (routeDistance w) (routeTime w)
    (slider w) (alerts w) (in_flight w) (dispatched w).

Definition set_calls v (w : world) : world :=
  World (features w) (startPoint w) (endPoint w) (groupedPaths w)
    (hoveredFeatureId w) (previous_cursor w) (featureState w) v (cursor w)
    (route w) (once_click w) (button_pulsing w) (button_disabled w)
    (button_text w) (routeInfo_hidden w) (routeDistance w) (routeTime w)
    (slider w) (alerts w) (in_flight w) (dispatched w).

Definition set_cursor v (w : world) : world :=
  World (features w) (startPoint w) (endPoint w) (groupedPaths w)
    (hoveredFeatureId w) (previous_cursor w) (featureState w) (calls w) v
    (route w) (once_click w) (button_pulsing w) (button_disabled w)
    (button_text w) (routeInfo_hidden w) (routeDistance w) (routeTime w)
    (slider w) (alerts w) (in_flight w) (dispatched w).

Definition set_route v (w : world) : world :=
  World (features w) (startPoint w) (endPoint w) (groupedPaths w)
    (hoveredFeatureId w) (previous_cursor w) (featureState w) (calls w)
    (cursor w) v (once_click w) (button_pulsing w) (button_disabled w)
    (button_text w) (routeInfo_hidden w) (routeDistance w) (routeTime w)
    (slider w) (alerts w) (in_flight w) (dispatched w).

Definition set_once_click v (w : world) : world :=
  World (features w) (startPoint w) (endPoint w) (groupedPaths w)
    (hoveredFeatureId w) (previous_cursor w) (featureState w) (calls w)
    (cursor w) (route w) v (button_pulsing w) (button_disabled w)
    (button_text w) (routeInfo_hidden w) (routeDistance w) (routeTime w)
    (slider w) (alerts w) (in_flight w) (dispatched w).

Definition set_button_pulsing v (w : world) : world :=
  World (features w) (startPoint w) (endPoint w) (groupedPaths w)
    (hoveredFeatureId w) (previous_cursor w) (featureState w) (calls w)
    (cursor w) (route w) (once_click w) v (button_disabled w)
    (button_text w) (routeInfo_hidden w) (routeDistance w) (routeTime w)
    (slider w) (alerts w) (in_flight w) (dispatched w).

Definition set_button_disabled v (w : world) : world :=
  World (features w) (startPoint w) (endPoint w) (groupedPaths w)
    (hoveredFeatureId w) (previous_cursor w) (featureState w) (calls w)
    (cursor w) (route w) (once_click w) (button_pulsing w) v (button_text w)
    (routeInfo_hidden w) (routeDistance w) (routeTime w) (slider w)
    (alerts w) (in_flight w) (dispatched w).

Definition set_button_text v (w : world) : world :=
  World (features w) (startPoint w) (endPoint w) (groupedPaths w)
    (hoveredFeatureId w) (previous_cursor w) (featureState w) (calls w)
    (cursor w) (route w) (once_click w) (button_pulsing w)
    (button_disabled w) v (routeInfo_hidden w) (routeDistance w)
    (routeTime w) (slider w) (alerts w) (in_flight w) (dispatched w).

Definition set_routeInfo_hidden v (w : world) : world :=
  World (features w) (startPoint w) (endPoint w) (groupedPaths w)
    (hoveredFeatureId w) (previous_cursor w) (featureState w) (calls w)
    (cursor w) (route w) (once_click w) (button_pulsing w)
    (button_disabled w) (button_text w) v (routeDistance w) (routeTime w)
    (slider w) (alerts w) (in_flight w) (dispatched w).

Definition set_routeDistance v (w : world) : world :=
  World (features w) (startPoint w) (endPoint w) (groupedPaths w)
    (hoveredFeatureId w) (previous_cursor w) (featureState w) (calls w)
    (cursor w) (route w) (once_click w) (button_pulsing w)
    (button_disabled w) (button_text w) (routeInfo_hidden w) v (routeTime w)
    (slider w) (alerts w) (in_flight w) (dispatched w).

Definition set_routeTime v (w : world) : world :=
  World (features w) (startPoint w) (endPoint w) (groupedPaths w)
    (hoveredFeatureId w) (previous_cursor w) (featureState w) (calls w)
    (cursor w) (route w) (once_click w) (button_pulsing w)
    (button_disabled w) (button_text w) (routeInfo_hidden w)
    (routeDistance w) v (slider w) (alerts w) (in_flight w) (dispatched w).

Definition set_slider v (w : world) : world :=
  World (features w) (startPoint w) (endPoint w) (groupedPaths w)
    (hoveredFeatureId w) (previous_cursor w) (featureState w) (calls w)
    (cursor w) (route w) (once_click w) (button_pulsing w)
    (button_disabled w) (button_text w) (routeInfo_hidden w)
    (routeDistance w) (routeTime w) v (alerts w) (in_flight w)
    (dispatched w).

Definition set_alerts v (w : world) : world :=
  World (features w) (startPoint w) (endPoint w) (groupedPaths w)
    (hoveredFeatureId w) (previous_cursor w) (featureState w) (calls w)
    (cursor w) (route w) (once_click w) (button_pulsing w)
    (button_disabled w) (button_text w) (routeInfo_hidden w)
    (routeDistance w) (routeTime w) (slider w) v (in_flight w)
    (dispatched w).

Definition set_in_flight v (w : world) : world :=
  World (features w) (startPoint w) (endPoint w) (groupedPaths w)
    (hoveredFeatureId w) (previous_cursor w) (featureState w) (calls w)
    (cursor w) (route w) (once_click w) (button_pulsing w)
    (button_disabled w) (button_text w) (routeInfo_hidden w)
    (routeDistance w) (routeTime w) (slider w) (alerts w) v (dispatched w).

Definition set_dispatched v (w : world) : world :=
  World (features w) (startPoint w) (endPoint w) (groupedPaths w)
    (hoveredFeatureId w) (previous_cursor w) (featureState w) (calls w)
    (cursor w) (route w) (once_click w) (button_pulsing w)
    (button_disabled w) (button_text w) (routeInfo_hidden w)
    (routeDistance w) (routeTime w) (slider w) (alerts w) (in_flight w) v.

(** ** JS numbers

    A JS number is a binary64 float, the kernel's [float].  The operators
    [/] and [>=] are the primitive ones; the built-ins the script calls
    ([Math.floor], [Math.round], [%], [toFixed], the conversion to a string
    in a template literal) are written out after ECMAScript, on the exact
    rational value of the double. *)
Module JS.

(** The exact value of the finite double [m * 2^e]. *)
Definition exact (m : positive) (e : Z) : Q :=
  if (0 <=? e)%Z then inject_Z (Zpos m * 2 ^ e)
  else Qmake (Zpos m) (Z.to_pos (2 ^ (- e))).

Definition pow10 (z : Z) : Q :=
  if (0 <=? z)%Z then inject_Z (10 ^ z) else Qmake 1 (Z.to_pos (10 ^ (- z))).

Definition signed (s : bool) (x : float) : float :=
  if s then PrimFloat.opp x else x.

(** The double of an integer of magnitude at most [2^53]. *)
Definition of_integer (z : Z) : float :=
  signed (z <? 0)%Z (PrimFloat.of_uint63 (Uint63.of_Z (Z.abs z))).

Definition decimal (z : Z) : string :=
  NilZero.string_of_uint (N.to_uint (Z.to_N z)).

Fixpoint zeros (n : nat) : string :=
  match n with O => "" | S n => "0" ++ zeros n end.

Definition str_take (n : nat) (s : string) : string := String.substring 0 n s.

Definition str_drop (n : nat) (s : string) : string :=
  String.substring n (String.length s - n) s.

(** [Math.floor(x)]: a double with [0 <= e] is integral already. *)
Definition Math_floor (x : float) : float :=
  match Prim2SF x with
  | S754_finite s m e =>
      if (0 <=? e)%Z then x
      else of_integer (Qfloor (if s then Qopp (exact m e) else exact m e))
  | _ => x
  end.

(** [Math.round(x)]: the nearest integer, the one towards +infinity of
    two; the zero keeps the sign of [x]. *)
Definition Math_round (x : float) : float :=
  match Prim2SF x with
  | S754_finite s m e =>
      if (0 <=? e)%Z then x
      else
        let r := Qfloor (Qplus (if s then Qopp (exact m e) else exact m e)
                               (Qmake 1 2)) in
        if (r =? 0)%Z then signed s 0%float else of_integer r
  | _ => x
  end.

(** [n % d]: the exact remainder of the truncating division, with the
    sign of [n]. *)
Definition remainder (n d : float) : float :=
  match Prim2SF n, Prim2SF d with
  | S754_nan, _ | _, S754_nan => nan
  | S754_infinity _, _ => nan
  | _, S754_zero _ => nan
  | _, S754_infinity _ => n
  | S754_zero _, _ => n
  | S754_finite sn mn en, S754_finite _ md ed =>
      let e := Z.min en ed in
      let r := ((Zpos mn * 2 ^ (en - e)) mod (Zpos md * 2 ^ (ed - e)))%Z in
      signed sn (Z.ldexp (PrimFloat.of_uint63 (Uint63.of_Z r)) e)
  end.

(** *** Number to string

    The digits [s], their number [k] and the position [n] of the decimal
    point with [s * 10^(n-k)] a decimal that reads back as the double and
    [k] as small as possible; of several [s], the one nearest to the
    double. *)
Record digits := Digits { dg_s : Z; dg_k : nat; dg_n : Z }.

(** [c] rounds to the double [m * 2^e]: it lies between the midpoints to
    the neighbouring doubles, the midpoints included when [m] is even. *)
Definition in_interval (m : positive) (e : Z) (c : Q) : bool :=
  let v := exact m e in
  let up := exact 1 (e - 1) in
  let down := if (Zpos m =? 2 ^ 52)%Z && (-1074 <? e)%Z then exact 1 (e - 2)
              else exact 1 (e - 1) in
  let lo := Qminus v down in
  let hi := Qplus v up in
  if Z.even (Zpos m) then Qle_bool lo c && Qle_bool c hi
  else negb (Qle_bool c lo) && negb (Qle_bool hi c).

Fixpoint first_above (fuel : nat) (v : Q) (c : Z) : Z :=
  match fuel with
  | O => c
  | S fuel => if Qle_bool (pow10 c) v then first_above fuel v (c + 1)%Z else c
  end.

(** The [n0] with [10^(n0-1) <= v < 10^n0], found from the binary
    logarithm. *)
Definition magnitude (m : positive) (e : Z) : Z :=
  let b := (Z.log2 (Zpos m) + e)%Z in
  first_above 6 (exact m e) ((b * 30103) / 100000 - 1)%Z.

(** The [k]-digit decimal that reads back as the double, if there is
    one: the multiple of [10^(n0-k)] below or above the value. *)
Definition candidate (m : positive) (e : Z) (n0 : Z) (k : nat) : option Z :=
  let v := exact m e in
  let p := pow10 (n0 - Z.of_nat k) in
  let lo := Qfloor (Qdiv v p) in
  let hi := (lo + 1)%Z in
  let dlo := Qminus v (Qmult (inject_Z lo) p) in
  let dhi := Qminus (Qmult (inject_Z hi) p) v in
  match in_interval m e (Qmult (inject_Z lo) p),
        in_interval m e (Qmult (inject_Z hi) p) with
  | false, false => None
  | true, false => Some lo
  | false, true => Some hi
  | true, true =>
      if Qeq_bool dlo dhi then Some (if Z.even lo then lo else hi)
      else if Qle_bool dlo dhi then Some lo else Some hi
  end.

Fixpoint search (fuel : nat) (m : positive) (e : Z) (n0 : Z) (k : nat)
  : digits :=
  match candidate m e n0 k with
  | Some s =>
      if (s =? 10 ^ Z.of_nat k)%Z then Digits 1 1 (n0 + 1) else Digits s k n0
  | None =>
      match fuel with
      | O => Digits 0 1 n0
      | S fuel => search fuel m e n0 (S k)
      end
  end.

(** Seventeen digits identify any double. *)
Definition shortest (m : positive) (e : Z) : digits :=
  search 17 m e (magnitude m e) 1.

Definition render (d : digits) : string :=
  let s := decimal (dg_s d) in
  let k := dg_k d in
  let n := dg_n d in
  if (Z.of_nat k <=? n)%Z && (n <=? 21)%Z then s ++ zeros (Z.to_nat n - k)
  else if (0 <? n)%Z && (n <=? 21)%Z then
    str_take (Z.to_nat n) s ++ "." ++ str_drop (Z.to_nat n) s
  else if (-6 <? n)%Z && (n <=? 0)%Z then "0." ++ zeros (Z.to_nat (- n)) ++ s
  else
    let ex := (n - 1)%Z in
    let tail :=
      "e" ++ (if (ex <? 0)%Z then "-" else "+") ++ decimal (Z.abs ex) in
    if (k =? 1)%nat then s ++ tail
    else str_take 1 s ++ "." ++ str_drop 1 s ++ tail.

(** [`${x}`] *)
Definition toString (x : float) : string :=
  match Prim2SF x with
  | S754_nan => "NaN"
  | S754_zero _ => "0"
  | S754_infinity s => if s then "-Infinity" else "Infinity"
  | S754_finite s m e => (if s then "-" else "") ++ render (shortest m e)
  end.

(** The digits of [n] with a point before the last [f]. *)
Definition fixed (n : Z) (f : nat) : string :=
  let m := decimal n in
  if (f =? 0)%nat then m
  else
    let m := zeros (S f - String.length m) ++ m in
    let k := String.length m in
    str_take (k - f) m ++ "." ++ str_drop (k - f) m.

(** [x.toFixed(f)]: the integer [n] with [n / 10^f] nearest to [x], the
    larger of two. *)
Definition toFixed (x : float) (f : nat) : string :=
  match Prim2SF x with
  | S754_nan => "NaN"
  | S754_infinity s => if s then "-Infinity" else "Infinity"
  | S754_zero _ => fixed 0 f
  | S754_finite s m e =>
      if Qle_bool (pow10 21) (exact m e) then toString x
      else (if s then "-" else "")
           ++ fixed (Qfloor (Qplus (Qmult (exact m e) (pow10 (Z.of_nat f)))
                                   (Qmake 1 2))) f
  end.

(** [x >= y] *)
Definition ge (x y : float) : bool := PrimFloat.leb y x.

End JS.

(** ** Strings *)

(** [s.startsWith(p)] *)
Fixpoint startsWith (p s : string) : bool :=
  match p, s with
  | EmptyString, _ => true
  | String a p', String b s' => bool_decide (a = b) && startsWith p' s'
  | String _ _, EmptyString => false
  end.

(** [s.replace(p, '')]: the first occurrence of [p] is removed. *)
Fixpoint replace_first (p s : string) : string :=
  if startsWith p s then JS.str_drop (String.length p) s
  else match s with
       | EmptyString => EmptyString
       | String c s' => String c (replace_first p s')
       end.

(** ** The map surface: feature states *)

Definition no_state : fstate := FState None None.

(** [map.setFeatureState({source: 'cycleways', id: i}, patch)]: the keys
    of [patch] are merged into the state of feature [i]. *)
Definition setFeatureState (i : ident) (patch : fstate) (w : world) : world :=
  set_calls (calls w ++ [SetFeatureState i patch])
    (set_featureState
       (<[i := merge_fstate patch (default no_state (featureState w !! i))]>
          (featureState w)) w).

(** [['boolean', ['feature-state', 'hover'], false]] and the same for
    [selected]: what the layer's paint reads. *)
Definition hover_flag (w : world) (i : ident) : bool :=
  match featureState w !! i with
  | Some st => default false (hover st)
  | None => false
  end.

Definition selected_flag (w : world) (i : ident) : bool :=
  match featureState w !! i with
  | Some st => default false (selected st)
  | None => false
  end.

(** ** Hover *)

(** [map.on('mousemove', 'cycleways-layer', ...)], with the ids of
    [e.features]. *)
Definition on_mousemove (e_features : list ident) (w : world) : world :=
  match e_features with
  | [] => w
  | first :: _ =>
      let w := match hoveredFeatureId w with
               | Some h => setFeatureState h (FState (Some false) None) w
               | None => w
               end in
      let w := set_hoveredFeatureId (Some first) w in
      let w := setFeatureState first (FState (Some true) None) w in
      let w := if bool_decide (cursor w = "pointer") then w
               else set_previous_cursor (cursor w) w in
      set_cursor "pointer" w
  end.

(** [map.on('mouseleave', 'cycleways-layer', ...)] *)
Definition on_mouseleave (w : world) : world :=
  let w := match hoveredFeatureId w with
           | Some h => setFeatureState h (FState (Some false) None) w
           | None => w
           end in
  let w := set_hoveredFeatureId None w in
  set_cursor (previous_cursor w) w.

(** ** Selection *)

(** [features.findIndex(p)], [-1] as [None]. *)
Fixpoint findIndex (p : feature -> bool) (l : list feature) : option nat :=
  match l with
  | [] => None
  | f :: l' => if p f then Some O else S <$> findIndex p l'
  end.

(** [features.splice(i, 1)] *)
Definition splice (i : nat) (l : list feature) : list feature :=
  take i l ++ drop (S i) l.

Definition same_id (i : ident) (f : feature) : bool := bool_decide (f_id f = i).

(** [map.on('click', ...)] *)
Definition on_click (lngLat : lnglat) (w : world) : world :=
  let coordinates := lngLat in
  match hoveredFeatureId w with
  | Some h =>
      match findIndex (same_id h) (features w) with
      | Some existingFeatureIndex =>
          let w := set_features (splice existingFeatureIndex (features w)) w in
          setFeatureState h (FState None (Some false)) w
      | None =>
          let w := set_features (features w ++ [Feature h (Some coordinates)]) w in
          setFeatureState h (FState None (Some true)) w
      end
  | None => w
  end.

(** [deselectAllRoutes] *)
Definition deselectAllRoutes (w : world) : world :=
  let w := fold_left (fun w f => setFeatureState (f_id f)
                                   (FState None (Some false)) w)
                     (features w) w in
  set_features [] w.

(** ** Path groups *)

(** [if (x.id) idsToSelect.push(x.id)] *)
Definition member_ids (m : member) : list ident :=
  match m_id m with
  | Some i => if truthy i then [i] else []
  | None => []
  end.

Definition item_ids (it : item) : list ident :=
  match it with
  | ItemNested sub => flat_map member_ids sub
  | ItemMember m => member_ids m
  end.

(** [extractIdsFromPath]: a name that is no key of [paths], or whose value
    is not an array (an inherited member among them), gives no ids. *)
Definition extractIdsFromPath (g : grouped) (pathKey : string) : list ident :=
  match paths g with
  | None => []
  | Some ps =>
      match get_property ps pathKey with
      | Own (PathArray pathGroup) => flat_map item_ids pathGroup
      | Own PathOther => []
      | Inherited => []
      | Undefined => []
      end
  end.

(** A value, or the [TypeError] that ends the handler. *)
Inductive result (A : Type) :=
| Ok (a : A)
| TypeError (message : string).
Arguments Ok {A} a.
Arguments TypeError {A} message.

(** The first half of [selectPathGroup]: the list [idsToSelect] the
    reference resolves to.  A hierarchy name that is an inherited member
    passes the guard [groupedPaths.hierarchy[hierarchyKey]] with a value
    that has no [forEach]. *)
Definition idsToSelect (g : grouped) (groupKey : string)
  : result (list ident) :=
  if startsWith "hierarchy:" groupKey then
    let hierarchyKey := replace_first "hierarchy:" groupKey in
    match hierarchy g with
    | None => Ok []
    | Some h =>
        match get_property h hierarchyKey with
        | Own childPaths => Ok (flat_map (extractIdsFromPath g) childPaths)
        | Inherited => TypeError "childPaths.forEach is not a function"
        | Undefined => Ok []
        end
    end
  else if startsWith "path:" groupKey then
    let pathKey := replace_first "path:" groupKey in
    Ok (extractIdsFromPath g pathKey)
  else Ok [].

(** The body of [idsToSelect.forEach]: an id no entry of [features] has
    is pushed with [coordinates: null] and flagged selected. *)
Definition select_id (w : world) (i : ident) : world :=
  match find (same_id i) (features w) with
  | Some existingFeature => w
  | None =>
      let w := set_features (features w ++ [Feature i None]) w in
      setFeatureState i (FState None (Some true)) w
  end.

(** [selectPathGroup(groupKey)] *)
Definition selectPathGroup (groupKey : string) (w : world) : result world :=
  if bool_decide (groupKey = "") then Ok w
  else
    match idsToSelect (groupedPaths w) groupKey with
    | Ok ids => Ok (fold_left select_id ids w)
    | TypeError message => TypeError message
    end.

(** The [onchange] of the dropdown: an error thrown by [selectPathGroup]
    is not caught; it is thrown before anything is written, so the page
    is as it was. *)
Definition on_pathGroups_change (value : string) (w : world) : world :=
  if bool_decide (value = "") then w
  else match selectPathGroup value w with
       | Ok w' => w'
       | TypeError _ => w
       end.

(** [loadGroupedPaths], once the dataset has arrived. *)
Definition on_groupedPaths_loaded (data : grouped) (w : world) : world :=
  set_groupedPaths data w.

(** ** Markers *)

(** [setStart] and [setEnd] *)
Definition setMarker (r : role) (w : world) : world :=
  set_once_click (once_click w ++ [r]) (set_cursor "crosshair" w).

(** The listener [map.once('click', ...)] registered by [setStart] or
    [setEnd]: the marker of the role is replaced. *)
Definition place_marker (lngLat : lnglat) (w : world) (r : role) : world :=
  let w := match r with
           | StartRole => set_startPoint (Some lngLat) w
           | EndRole => set_endPoint (Some lngLat) w
           end in
  set_cursor "" w.

(** A click on the map: the permanent listener, then the pending
    one-time listeners, which are then gone. *)
Definition map_click (lngLat : lnglat) (w : world) : world :=
  let w := on_click lngLat w in
  set_once_click [] (fold_left (place_marker lngLat) (once_click w) w).

(** ** The route-info panel *)

Local Open Scope float_scope.

(** The distance text of [showRouteInfo]. *)
Definition distanceText (distanceMeters : float) : string :=
  if JS.ge distanceMeters 1000 then
    JS.toFixed (distanceMeters / 1000) 1 ++ " km"
  else JS.toString (JS.Math_round distanceMeters) ++ " m".

(** The time text of [showRouteInfo]. *)
Definition timeText (travelTimeSeconds : float) : string :=
  if JS.ge travelTimeSeconds 3600 then
    let hours := JS.Math_floor (travelTimeSeconds / 3600) in
    let minutes := JS.Math_round (JS.remainder travelTimeSeconds 3600 / 60) in
    JS.toString hours ++ "h " ++ JS.toString minutes ++ "m"
  else if JS.ge travelTimeSeconds 60 then
    let minutes := JS.Math_round (travelTimeSeconds / 60) in
    JS.toString minutes ++ " min"
  else JS.toString (JS.Math_round travelTimeSeconds) ++ " sec".

Local Close Scope float_scope.

(** [showRouteInfo]: the two texts are written and the class [hidden] is
    taken off the panel. *)
Definition showRouteInfo (distanceMeters travelTimeSeconds : float)
  (w : world) : world :=
  let w := set_routeDistance (distanceText distanceMeters) w in
  let w := set_routeTime (timeText travelTimeSeconds) w in
  set_routeInfo_hidden false w.

Definition hideRouteInfo (w : world) : world := set_routeInfo_hidden true w.

(** [clearRoute] *)
Definition clearRoute (w : world) : world :=
  hideRouteInfo (set_route [] w).

(** ** Route requests *)

Definition alert (message : string) (w : world) : world :=
  set_alerts (alerts w ++ [message]) w.

(** [generateRoute]: the POST is sent and the function returns; the
    promise settles in a later turn of the event loop. *)
Definition generateRoute (start end_ : lnglat) (preferredRoutes : list ident)
  (followingWeight : string) (w : world) : world :=
  set_dispatched (S (dispatched w))
    (set_in_flight
       (in_flight w ++ [Request start end_ followingWeight preferredRoutes])
       w).

(** The [onclick] of the generate button: the [try] block runs to its
    end, since [generateRoute] returns at once, and [finally] follows. *)
Definition on_generate_click (w : world) : world :=
  match startPoint w, endPoint w with
  | Some startCoords, Some endCoords =>
      let w := set_button_pulsing true w in
      let w := set_button_disabled true w in
      let w := set_button_text "Generating Route..." w in
      let followingWeight := slider w in
      let w := generateRoute startCoords endCoords (map f_id (features w))
                 followingWeight w in
      let w := set_button_pulsing false w in
      let w := set_button_disabled false w in
      set_button_text "Generate Route" w
  | _, _ => alert "Please set both start and end points." w
  end.

(** A response with [response.ok], that is a status from 200 to 299. *)
Definition response_ok (status : Z) : bool :=
  (200 <=? status)%Z && (status <=? 299)%Z.

Definition route_error : string :=
  "Error generating route. Please check if the backend server is running.".

(** The [then] and [catch] callbacks of [generateRoute]'s promise. *)
Definition on_settled (s : settlement) (w : world) : world :=
  match s with
  | NetworkError => alert route_error w
  | Response status body =>
      if response_ok status then
        match body with
        | Some (WithGeojson geojson distance_meters travel_time_seconds) =>
            let w := set_route geojson w in
            showRouteInfo distance_meters travel_time_seconds w
        | Some (Bare data) => set_route data w
        | None => alert route_error w
        end
      else alert route_error w
  end.

(** ** Events *)

Inductive event :=
| MouseMove (e_features : list ident)
| MouseLeave
| MapClick (lngLat : lnglat)
| SetStartClick
| SetEndClick
| DeselectAllClick
| ClearRouteClick
| PathGroupsChange (value : string)
| GroupedPathsLoaded (data : grouped)
| SliderInput (value : string)
| GenerateClick
| Settled (k : nat) (s : settlement).

(** The browser fires no click on a disabled button; the [k]-th request in
    flight settles and its callbacks run. *)
Definition step (w : world) (e : event) : world :=
  match e with
  | MouseMove fs => on_mousemove fs w
  | MouseLeave => on_mouseleave w
  | MapClick lngLat => map_click lngLat w
  | SetStartClick => setMarker StartRole w
  | SetEndClick => setMarker EndRole w
  | DeselectAllClick => deselectAllRoutes w
  | ClearRouteClick => clearRoute w
  | PathGroupsChange value => on_pathGroups_change value w
  | GroupedPathsLoaded data => on_groupedPaths_loaded data w
  | SliderInput value => set_slider value w
  | GenerateClick => if button_disabled w then w else on_generate_click w
  | Settled k s =>
      match in_flight w !! k with
      | Some _ => on_settled s (set_in_flight (delete k (in_flight w)) w)
      | None => w
      end
  end.

Definition run (w : world) (es : list event) : world := fold_left step es w.

(** The page as loaded: nothing selected, no marker, the dataset not yet
    there, no feature state, no request; the controls as index.html has
    them. *)
Definition initial (page : controls) : world :=
  {| features := []; startPoint := None; endPoint := None;
     groupedPaths := Grouped None None; hoveredFeatureId := None;
     previous_cursor := ""; featureState := ∅; calls := []; cursor := "";
     route := []; once_click := []; button_pulsing := false;
     button_disabled := false; button_text := button_text0 page;
     routeInfo_hidden := routeInfo_hidden0 page; routeDistance := "";
     routeTime := ""; slider := slider0 page; alerts := []; in_flight := [];
     dispatched := O |}.

(** ** Notions the statements use *)

(** [features.map(x => x.id)]: the selection, as sent to the route
    service. *)
Definition selection (w : world) : list ident := map f_id (features w).

(** The ids of [l] that are not in [seen], each at its first occurrence. *)
Fixpoint first_seen (seen l : list ident) : list ident :=
  match l with
  | [] => []
  | i :: l' =>
      if bool_decide (i ∈ seen) then first_seen seen l'
      else i :: first_seen (i :: seen) l'
  end.

(** The feature of the last [mousemove] over a feature that no
    [mouseleave] has followed. *)
Definition entered (h : option ident) (e : event) : option ident :=
  match e with
  | MouseMove (i :: _) => Some i
  | MouseLeave => None
  | _ => h
  end.

Definition last_entered (es : list event) : option ident :=
  fold_left entered es None.

(** The selection and the flags agree, and no id is selected twice. *)
Definition consistent (w : world) : Prop :=
  NoDup (selection w) ∧
  ∀ i, i ∈ selection w ↔ selected_flag w i = true.

(** The hover flag is set on the hovered feature and on no other. *)
Definition hover_consistent (w : world) : Prop :=
  ∀ i, hover_flag w i = true ↔ hoveredFeatureId w = Some i.

(** ** Sample data *)

(** A dataset in which the two groups of a hierarchy share a member. *)
Definition shared_member : grouped :=
  Grouped
    (Some {[ "H" := ["G1"; "G2"] ]})
    (Some (<[ "G1" := PathArray [ItemMember (Member (Some (IdNum 1)));
                                 ItemMember (Member (Some (IdNum 2)))] ]>
             {[ "G2" := PathArray [ItemMember (Member (Some (IdNum 2)));
                                   ItemMember (Member (Some (IdNum 3)))] ]})).

(** Controls for the sample runs. *)
Definition page0 : controls := Controls "0.5" "Generate Route" true.

(** The dataset of the walk-through: one hierarchy over one flat group of
    three members. *)
Definition leith_walk : grouped :=
  Grouped
    (Some {[ "leith" := ["leith_walk"] ]})
    (Some {[ "leith_walk" :=
               PathArray [ItemMember (Member (Some (IdNum 101)));
                          ItemMember (Member (Some (IdNum 102)));
                          ItemMember (Member (Some (IdNum 103)))] ]}).

Local Open Scope float_scope.

(** The page with both markers set. *)
Definition markers_set : world :=
  run (initial page0)
    [SetStartClick; MapClick (-3.25, 55.75); SetEndClick;
     MapClick (-3.5, 55.5)].

(** A request sent and not yet answered. *)
Definition pending : world := step markers_set GenerateClick.

Local Close Scope float_scope.

(** ** The dropdown of path groups *)

(** An [<option>] of the dropdown: the [value] attribute if it was set,
    the text, the bold font of a hierarchy entry, and [disabled]. *)
Record option_el := OptionEl {
  opt_value : option string;
  textContent : string;
  bold : bool;
  disabled : bool
}.

(** [option.value] as the [onchange] handler reads it: the attribute, or
    the text of an option that has none. *)
Definition value_of (o : option_el) : string :=
  default (textContent o) (opt_value o).

(** The characters [\w] matches, and [toUpperCase] on one of them. *)
Definition is_lower (c : Ascii.ascii) : bool :=
  (97 <=? Ascii.nat_of_ascii c)%nat && (Ascii.nat_of_ascii c <=? 122)%nat.

Definition is_word (c : Ascii.ascii) : bool :=
  is_lower c
  || ((65 <=? Ascii.nat_of_ascii c)%nat && (Ascii.nat_of_ascii c <=? 90)%nat)
  || ((48 <=? Ascii.nat_of_ascii c)%nat && (Ascii.nat_of_ascii c <=? 57)%nat)
  || bool_decide (c = "_"%char).

Definition toUpperCase (c : Ascii.ascii) : Ascii.ascii :=
  if is_lower c then Ascii.ascii_of_nat (Ascii.nat_of_ascii c - 32) else c.

(** [s.replace(/_/g, ' ')] *)
Fixpoint underscores_to_spaces (s : string) : string :=
  match s with
  | EmptyString => EmptyString
  | String c s' =>
      String (if bool_decide (c = "_"%char) then " "%char else c)
             (underscores_to_spaces s')
  end.

(** [s.replace(/\b\w/g, l => l.toUpperCase())]: a word character that
    follows none is upper-cased; [after_word] tells whether the character
    before is a word character. *)
Fixpoint capitalize (after_word : bool) (s : string) : string :=
  match s with
  | EmptyString => EmptyString
  | String c s' =>
      String (if is_word c && negb after_word then toUpperCase c else c)
             (capitalize (is_word c) s')
  end.

(** The label of a key: [key.replace(/_/g, ' ').replace(/\b\w/g, ...)]. *)
Definition label (key : string) : string :=
  capitalize false (underscores_to_spaces key).

(** [Object.keys] of the two objects of the dataset, in the order the
    browser enumerates them; the finite maps of [grouped] do not record
    it. *)
Record key_order := KeyOrder {
  hierarchy_keys : list string;
  paths_keys : list string
}.

(** The lists are the keys of the dataset, each once. *)
Definition lists_keys {V} (keys : list string) (o : option (gmap string V))
  : Prop :=
  match o with
  | Some m => NoDup keys ∧ ∀ k, k ∈ keys ↔ is_Some (m !! k)
  | None => True
  end.

Definition keys_of (g : grouped) (ko : key_order) : Prop :=
  lists_keys (hierarchy_keys ko) (hierarchy g) ∧
  lists_keys (paths_keys ko) (paths g).

(** The options of the child paths of one hierarchy entry. *)
Definition child_options (childPaths : list string) : list option_el :=
  imap (fun index childPath =>
          let isLast := (index =? length childPaths - 1)%nat in
          let treeChar := if isLast then "└──" else "├──" in
          OptionEl (Some ("path:" ++ childPath))
                   (treeChar ++ " " ++ label childPath) false false)
       childPaths.

Definition hierarchy_options (h : gmap string (list string))
  (keys : list string) : list option_el :=
  flat_map (fun hierarchyKey =>
              OptionEl (Some ("hierarchy:" ++ hierarchyKey))
                       (label hierarchyKey) true false
              :: child_options (default [] (h !! hierarchyKey)))
           keys.

Definition separator : option_el :=
  OptionEl None "━━━━━━━━━━━━━━━━━━━━" false true.

(** [Object.values(groupedPaths.hierarchy).some(children =>
    children.includes(pathKey))] *)
Definition isInHierarchy (g : grouped) (ko : key_order) (pathKey : string)
  : bool :=
  match hierarchy g with
  | Some h =>
      existsb (fun k => bool_decide (pathKey ∈ default [] (h !! k)))
              (hierarchy_keys ko)
  | None => false
  end.

Definition path_options (g : grouped) (ko : key_order) : list option_el :=
  flat_map (fun pathKey =>
              if isInHierarchy g ko pathKey then []
              else [OptionEl (Some ("path:" ++ pathKey)) (label pathKey)
                             false false])
           (paths_keys ko).

(** [populatePathGroupsDropdown], on the options the dropdown has: all
    but the first are removed, then the hierarchy entries with their
    children, the separator and the groups outside every hierarchy are
    appended. *)
Definition populatePathGroupsDropdown (g : grouped) (ko : key_order)
  (children : list option_el) : list option_el :=
  (take 1 children
   ++ match hierarchy g with
      | Some h => hierarchy_options h (hierarchy_keys ko)
      | None => []
      end
   ++ match hierarchy g, paths g with
      | Some _, Some _ => [separator]
      | _, _ => []
      end
   ++ match paths g with
      | Some _ => path_options g ko
      | None => []
      end)%list.

(** ** The version before hierarchies (app.js)

    [groupedPaths] is the object of the groups itself, the dropdown lists
    its keys, and the value of an option is the key. *)
Module V1.

Definition populatePathGroupsDropdown (keys : list string)
  (children : list option_el) : list option_el :=
  (take 1 children
   ++ map (fun groupKey => OptionEl (Some groupKey) (label groupKey)
                             false false) keys)%list.

(** [selectPathGroup]: a key with a falsy value returns at once; a value
    that is no array, an inherited member among them, gives no ids. *)
Definition selectPathGroup (groupedPaths : gmap string path_value)
  (groupKey : string) (w : world) : world :=
  if bool_decide (groupKey = "") then w
  else
    match get_property groupedPaths groupKey with
    | Undefined => w
    | Own (PathArray pathGroup) =>
        fold_left select_id (flat_map item_ids pathGroup) w
    | Own PathOther => w
    | Inherited => w
    end.

End V1.

(** ** The number a distance or a time stands for *)

(** The exact value of a finite JS number; infinities and NaN have none. *)
Definition number_value (x : float) : option Q :=
  match Prim2SF x with
  | S754_zero _ => Some (inject_Z 0)
  | S754_finite s m e => Some (if s then Qopp (JS.exact m e) else JS.exact m e)
  | _ => None
  end.

(** ** Numerals, roundings and checked ranges *)



(** The roundings of a positive double [m * 2^e] with [e < 0]. *)
Definition shifted_floor (m : positive) (e : Z) : Z := Z.shiftr (Zpos m) (- e).

Definition shifted_round (m : positive) (e : Z) : Z :=
  Z.shiftr (Z.shiftr (2 * Zpos m) (- e) + 1) 1.


(** What [Math.floor], [Math.round] and [toFixed(1)] make of a double that
    is not negative and below [2^53]: the integer, or the tenths. *)
Definition floored (x : float) : option Z :=
  match Prim2SF x with
  | S754_finite false m e =>
      if (e <? 0)%Z then Some (shifted_floor m e) else None
  | _ => None
  end.

Definition rounded (x : float) : option Z :=
  match Prim2SF x with
  | S754_zero false => Some 0%Z
  | S754_finite false m e =>
      if (e <? 0)%Z then Some (shifted_round m e) else None
  | _ => None
  end.


Definition is_value (o : option Z) (k : Z) : bool :=
  match o with
  | Some z => (z =? k)%Z
  | None => false
  end.

(** A check on every whole number of a range. *)
Fixpoint all_from (f : Z → bool) (a : Z) (len : nat) : bool :=
  match len with
  | O => true
  | S len => if f a then all_from f (a + 1) len else false
  end.

Local Open Scope float_scope.




Definition minutes_ok (n : Z) : bool :=
  JS.ge (JS.of_integer n) 60 && negb (JS.ge (JS.of_integer n) 3600) &&
  is_value (rounded (JS.of_integer n / 60)) ((n + 30) / 60).

(** [n % 3600] for a whole [n], from the significand of [n]. *)
Definition rest_of_hour (n : Z) : float :=
  Z.ldexp (PrimFloat.of_uint63 (Uint63.of_Z (Z.shiftl (n mod 3600) 41)))
    (-41).

Definition hours_ok (n : Z) : bool :=
  JS.ge (JS.of_integer n) 3600 &&
  is_value (floored (JS.of_integer n / 3600)) (n / 3600) &&
  match Prim2SF (JS.of_integer n) with
  | S754_finite false m e =>
      (-41 <=? e)%Z && (Z.shiftl (Zpos m) (e + 41) =? Z.shiftl n 41)%Z
  | _ => false
  end &&
  is_value (rounded (rest_of_hour n / 60)) ((n mod 3600 + 30) / 60).

Local Close Scope float_scope.

(** * Proofs *)

(** ** JS numbers: the built-ins on values whose results are known *)

Local Open Scope float_scope.

Example toString_known :
  map JS.toString
    [1 / 10 + 2 / 10; 1 / 3; 100; 1e21; 1e22 * 10; 1 / 10000000; 1 / 1000000;
     9007199254740992; 1180591620717411303424; - (3 / 2); nan; infinity; -0]
  = ["0.30000000000000004"; "0.3333333333333333"; "100"; "1e+21"; "1e+23";
     "1e-7"; "0.000001"; "9007199254740992"; "1.1805916207174113e+21";
     "-1.5"; "NaN"; "Infinity"; "0"]%string.
Proof. vm_compute. reflexivity. Qed.

Example toFixed_known :
  map (fun x => JS.toFixed x 1)
    [145 / 100; 125 / 100; 115 / 100; 105 / 100; 3 / 2; 5 / 100;
     - (4 / 100); 1e21]
  = ["1.4"; "1.3"; "1.1"; "1.1"; "1.5"; "0.1"; "-0.0"; "1e+21"]%string ∧
  map (fun x => JS.toFixed x 2) [1005 / 1000; 8345 / 1000; 10235 / 1000]
  = ["1.00"; "8.35"; "10.23"]%string ∧
  map (fun x => JS.toFixed x 0) [5 / 2; - (3 / 2); 1 / 2]
  = ["3"; "-2"; "1"]%string.
Proof. vm_compute. repeat split. Qed.

Example Math_known :
  map JS.Math_round [5 / 2; - (5 / 2); 1 / 2; - (1 / 2); 3 / 2; 25 / 12]
  = [3; -2; 1; -0; 2; 2] ∧
  map JS.Math_floor [5 / 2; - (5 / 2); 1 / 2; - (1 / 2); 3 / 2]
  = [2; -3; 0; -1; 1] ∧
  [JS.remainder 5400 3600; JS.remainder (11 / 2) 2; JS.remainder (- (11 / 2)) 2;
   JS.remainder 7199 3600; JS.remainder 5 infinity; JS.remainder 5 0]
  = [1800; 3 / 2; - (3 / 2); 3599; 5; nan].
Proof. vm_compute. repeat split. Qed.

Local Close Scope float_scope.

(** ** Feature states *)

Lemma features_setFeatureState i p w :
  features (setFeatureState i p w) = features w.
Proof. reflexivity. Qed.

Lemma selection_setFeatureState i p w :
  selection (setFeatureState i p w) = selection w.
Proof. reflexivity. Qed.

Lemma selected_flag_select i b w j :
  selected_flag (setFeatureState i (FState None (Some b)) w) j
  = if decide (j = i) then b else selected_flag w j.
Proof.
  unfold selected_flag, setFeatureState; simpl.
  destruct (decide (j = i)) as [->|Hne].
  - rewrite lookup_insert_eq. reflexivity.
  - rewrite lookup_insert_ne by congruence. reflexivity.
Qed.

Lemma selected_flag_hover i b w j :
  selected_flag (setFeatureState i (FState (Some b) None) w) j
  = selected_flag w j.
Proof.
  unfold selected_flag, setFeatureState; simpl.
  destruct (decide (j = i)) as [->|Hne].
  - rewrite lookup_insert_eq. destruct (featureState w !! i); reflexivity.
  - rewrite lookup_insert_ne by congruence. reflexivity.
Qed.

Lemma hover_flag_hover i b w j :
  hover_flag (setFeatureState i (FState (Some b) None) w) j
  = if decide (j = i) then b else hover_flag w j.
Proof.
  unfold hover_flag, setFeatureState; simpl.
  destruct (decide (j = i)) as [->|Hne].
  - rewrite lookup_insert_eq. reflexivity.
  - rewrite lookup_insert_ne by congruence. reflexivity.
Qed.

Lemma selected_flag_set_features l w j :
  selected_flag (set_features l w) j = selected_flag w j.
Proof. reflexivity. Qed.

Lemma hover_flag_select i b w j :
  hover_flag (setFeatureState i (FState None (Some b)) w) j = hover_flag w j.
Proof.
  unfold hover_flag, setFeatureState; simpl.
  destruct (decide (j = i)) as [->|Hne].
  - rewrite lookup_insert_eq. destruct (featureState w !! i); reflexivity.
  - rewrite lookup_insert_ne by congruence. reflexivity.
Qed.

(** ** The [features] array *)

Lemma splice_head f l : splice 0 (f :: l) = l.
Proof. reflexivity. Qed.

Lemma splice_tail k f l : splice (S k) (f :: l) = f :: splice k l.
Proof. reflexivity. Qed.

Lemma findIndex_None h l :
  findIndex (same_id h) l = None ↔ h ∉ map f_id l.
Proof.
  induction l as [|f l IH]; simpl.
  - split; [intros _; apply not_elem_of_nil | reflexivity].
  - unfold same_id at 1. rewrite not_elem_of_cons.
    destruct (bool_decide_reflect (f_id f = h)) as [Heq|Hne].
    + split; [discriminate | intros [Hh _]; congruence].
    + destruct (findIndex (same_id h) l) eqn:E; simpl.
      * split; [discriminate | intros [_ Hh]; apply IH in Hh; discriminate].
      * split; [intros _; split; [congruence | apply IH; reflexivity]
               | reflexivity].
Qed.

Lemma findIndex_Some h l k :
  findIndex (same_id h) l = Some k →
  NoDup (map f_id l) →
  NoDup (map f_id (splice k l)) ∧
  ∀ j, j ∈ map f_id (splice k l) ↔ j ∈ map f_id l ∧ j ≠ h.
Proof.
  revert k; induction l as [|f l IH]; intros k Hk Hnd; simpl in Hk.
  - discriminate.
  - simpl in Hnd. apply NoDup_cons in Hnd as [Hf Hnd].
    unfold same_id at 1 in Hk.
    destruct (bool_decide_reflect (f_id f = h)) as [Heq|Hne].
    + injection Hk as <-. rewrite splice_head. split; [assumption|].
      intros j; simpl; rewrite elem_of_cons. subst h. split.
      * intros Hj. split; [right; assumption | congruence].
      * intros [[->|Hj] Hne]; [congruence | assumption].
    + destruct (findIndex (same_id h) l) as [k'|] eqn:E; simpl in Hk;
        [|discriminate].
      injection Hk as <-. rewrite splice_tail.
      destruct (IH k' eq_refl Hnd) as [IHnd IHin]. simpl. split.
      * apply NoDup_cons. split; [|assumption].
        intros Hin. apply IHin in Hin as [Hin _]. contradiction.
      * intros j. rewrite !elem_of_cons, IHin. split.
        -- intros [->|[Hj Hjh]]; [split; [left; reflexivity | assumption]
                                 | split; [right; assumption | assumption]].
        -- intros [[->|Hj] Hjh]; [left; reflexivity | right; split; assumption].
Qed.

Lemma find_same_id_None i l :
  find (same_id i) l = None ↔ i ∉ map f_id l.
Proof.
  induction l as [|f l IH]; simpl.
  - split; [intros _; apply not_elem_of_nil | reflexivity].
  - unfold same_id at 1. rewrite not_elem_of_cons.
    destruct (bool_decide_reflect (f_id f = i)) as [Heq|Hne].
    + split; [discriminate | intros [Hh _]; congruence].
    + rewrite IH. split; [intros Hi; split; [congruence | assumption]
                         | intros [_ Hi]; assumption].
Qed.

Lemma find_same_id_Some i l :
  i ∈ map f_id l → ∃ f, find (same_id i) l = Some f.
Proof.
  intros Hin. destruct (find (same_id i) l) as [f|] eqn:E; [eauto|].
  apply find_same_id_None in E. contradiction.
Qed.

Lemma selection_push w f :
  selection (set_features (features w ++ [f]) w)
  = (selection w ++ [f_id f])%list.
Proof. unfold selection; simpl. apply map_app. Qed.

(** ** The selection and its flags *)

Lemma consistent_ext w w' :
  selection w' = selection w →
  (∀ i, selected_flag w' i = selected_flag w i) →
  consistent w → consistent w'.
Proof.
  intros Hs Hf [Hnd Hiff]. split.
  - rewrite Hs. assumption.
  - intros i. rewrite Hs, Hf. apply Hiff.
Qed.

Lemma consistent_initial page : consistent (initial page).
Proof.
  split.
  - apply NoDup_nil_2.
  - intros i. unfold selection, selected_flag; simpl.
    rewrite lookup_empty. split; [intros H; inversion H | discriminate].
Qed.

Lemma consistent_on_click lngLat w :
  consistent w → consistent (on_click lngLat w).
Proof.
  intros [Hnd Hiff]. unfold on_click.
  destruct (hoveredFeatureId w) as [h|]; [|split; assumption].
  destruct (findIndex (same_id h) (features w)) as [k|] eqn:E.
  - destruct (findIndex_Some h _ k E Hnd) as [Hnd' Hin]. split.
    + exact Hnd'.
    + intros i. rewrite selected_flag_select, selection_setFeatureState,
        selected_flag_set_features.
      unfold selection at 1; simpl. rewrite Hin.
      destruct (decide (i = h)) as [->|Hne].
      * split; [intros [_ Hh]; congruence | discriminate].
      * rewrite <- Hiff. unfold selection. tauto.
  - apply findIndex_None in E. split.
    + rewrite selection_setFeatureState, selection_push; simpl.
      apply NoDup_app. split; [assumption|]. split.
      * intros x Hx Hx'. apply list_elem_of_singleton in Hx'. subst x.
        contradiction.
      * apply NoDup_singleton.
    + intros i. rewrite selected_flag_select, selection_setFeatureState,
        selection_push, selected_flag_set_features; simpl.
      rewrite elem_of_app, list_elem_of_singleton.
      destruct (decide (i = h)) as [->|Hne].
      * split; [reflexivity | intros _; right; reflexivity].
      * rewrite <- Hiff. split; [intros [Hi|Hi]; [assumption | congruence]
                                | intros Hi; left; assumption].
Qed.

Lemma consistent_select_id w i : consistent w → consistent (select_id w i).
Proof.
  intros [Hnd Hiff]. unfold select_id.
  destruct (find (same_id i) (features w)) as [f|] eqn:E; [split; assumption|].
  apply find_same_id_None in E. split.
  - rewrite selection_setFeatureState, selection_push; simpl.
    apply NoDup_app. split; [assumption|]. split.
    + intros x Hx Hx'. apply list_elem_of_singleton in Hx'. subst x.
      contradiction.
    + apply NoDup_singleton.
  - intros j. rewrite selected_flag_select, selection_setFeatureState,
      selection_push, selected_flag_set_features; simpl.
    rewrite elem_of_app, list_elem_of_singleton.
    destruct (decide (j = i)) as [->|Hne].
    + split; [reflexivity | intros _; right; reflexivity].
    + rewrite <- Hiff. split; [intros [Hj|Hj]; [assumption | congruence]
                              | intros Hj; left; assumption].
Qed.

Lemma consistent_fold_select ids w :
  consistent w → consistent (fold_left select_id ids w).
Proof.
  revert w; induction ids as [|i ids IH]; intros w Hw; simpl; [assumption|].
  apply IH, consistent_select_id, Hw.
Qed.

Lemma deselect_fold l w :
  let w' := fold_left (fun w f => setFeatureState (f_id f)
                                    (FState None (Some false)) w) l w in
  features w' = features w ∧
  ∀ j, selected_flag w' j
       = if bool_decide (j ∈ map f_id l) then false else selected_flag w j.
Proof.
  revert w; induction l as [|f l IH]; intros w; cbn [fold_left map].
  - split; [reflexivity | intros j].
    rewrite bool_decide_eq_false_2 by apply not_elem_of_nil. reflexivity.
  - destruct (IH (setFeatureState (f_id f) (FState None (Some false)) w))
      as [Hf Hs].
    split; [rewrite Hf; reflexivity | intros j].
    rewrite Hs, selected_flag_select.
    destruct (decide (j = f_id f)) as [->|Hne].
    + rewrite (bool_decide_eq_true_2 (f_id f ∈ f_id f :: map f_id l))
        by (left).
      destruct (bool_decide _); reflexivity.
    + destruct (bool_decide_reflect (j ∈ map f_id l)) as [Hin|Hnin].
      * rewrite bool_decide_eq_true_2 by (right; assumption). reflexivity.
      * rewrite bool_decide_eq_false_2; [reflexivity|].
        rewrite not_elem_of_cons. split; assumption.
Qed.

Lemma consistent_deselectAllRoutes w :
  consistent w → consistent (deselectAllRoutes w).
Proof.
  intros [Hnd Hiff]. unfold deselectAllRoutes.
  destruct (deselect_fold (features w) w) as [_ Hs]. split.
  - apply NoDup_nil_2.
  - intros j. unfold selection at 1; simpl.
    rewrite selected_flag_set_features, Hs. split; [intros H; inversion H|].
    destruct (bool_decide_reflect (j ∈ map f_id (features w))) as [Hin|Hnin];
      [discriminate|].
    intros Hsel. apply Hiff in Hsel. contradiction.
Qed.

(** Writes that leave the selection or a flag alone are skipped. *)
Ltac frame :=
  repeat match goal with
    | |- context [selected_flag (setFeatureState ?i (FState (Some ?b) None) ?x) ?j] =>
        rewrite (selected_flag_hover i b x j)
    | |- context [hover_flag (setFeatureState ?i (FState None (Some ?b)) ?x) ?j] =>
        rewrite (hover_flag_select i b x j)
    | |- context [hover_flag (setFeatureState ?i (FState (Some ?b) None) ?x) ?j] =>
        rewrite (hover_flag_hover i b x j)
    | |- context [selected_flag (setFeatureState ?i (FState None (Some ?b)) ?x) ?j] =>
        rewrite (selected_flag_select i b x j)
    | |- context [selected_flag (?f ?v ?x) ?j] =>
        progress change (selected_flag (f v x) j) with (selected_flag x j)
    | |- context [hover_flag (?f ?v ?x) ?j] =>
        progress change (hover_flag (f v x) j) with (hover_flag x j)
    | |- context [selection (?f ?v ?x)] =>
        progress change (selection (f v x)) with (selection x)
    | |- context [hoveredFeatureId (setFeatureState ?i ?p ?x)] =>
        progress change (hoveredFeatureId (setFeatureState i p x))
          with (hoveredFeatureId x)
    end.

Lemma on_mousemove_frame fs w :
  selection (on_mousemove fs w) = selection w ∧
  ∀ j, selected_flag (on_mousemove fs w) j = selected_flag w j.
Proof.
  unfold on_mousemove. destruct fs as [|first fs]; [split; reflexivity|].
  destruct (hoveredFeatureId w); cbn zeta;
    match goal with |- context [bool_decide ?P] => destruct (bool_decide P) end;
    (split; [reflexivity | intros j; frame; reflexivity]).
Qed.

Lemma on_mouseleave_frame w :
  selection (on_mouseleave w) = selection w ∧
  ∀ j, selected_flag (on_mouseleave w) j = selected_flag w j.
Proof.
  unfold on_mouseleave.
  destruct (hoveredFeatureId w); cbn zeta;
    (split; [reflexivity | intros j; frame; reflexivity]).
Qed.

Lemma place_markers_frame lngLat rs w :
  let w' := fold_left (place_marker lngLat) rs w in
  features w' = features w ∧ featureState w' = featureState w ∧
  hoveredFeatureId w' = hoveredFeatureId w ∧ calls w' = calls w.
Proof.
  revert w; induction rs as [|r rs IH]; intros w; cbn [fold_left].
  - repeat split.
  - destruct (IH (place_marker lngLat w r)) as (Hf & Hs & Hh & Hc).
    cbn zeta. rewrite Hf, Hs, Hh, Hc. destruct r; repeat split.
Qed.

Lemma map_click_frame lngLat w :
  selection (map_click lngLat w) = selection (on_click lngLat w) ∧
  ∀ j, selected_flag (map_click lngLat w) j
       = selected_flag (on_click lngLat w) j.
Proof.
  unfold map_click; cbn zeta.
  destruct (place_markers_frame lngLat (once_click (on_click lngLat w))
              (on_click lngLat w)) as (Hf & Hs & _).
  split.
  - unfold selection; simpl. rewrite Hf. reflexivity.
  - intros j. unfold selected_flag; simpl. rewrite Hs. reflexivity.
Qed.

Lemma on_settled_frame s w :
  features (on_settled s w) = features w ∧
  featureState (on_settled s w) = featureState w ∧
  hoveredFeatureId (on_settled s w) = hoveredFeatureId w.
Proof.
  unfold on_settled. destruct s as [|status [[g d t|fc]|]];
    try destruct (response_ok status); repeat split.
Qed.

Lemma consistent_step w e : consistent w → consistent (step w e).
Proof.
  intros Hw. destruct e; cbn [step].
  - destruct (on_mousemove_frame e_features w) as [Hs Hf].
    exact (consistent_ext _ _ Hs Hf Hw).
  - destruct (on_mouseleave_frame w) as [Hs Hf].
    exact (consistent_ext _ _ Hs Hf Hw).
  - destruct (map_click_frame lngLat w) as [Hs Hf].
    exact (consistent_ext _ _ Hs Hf (consistent_on_click lngLat w Hw)).
  - exact Hw.
  - exact Hw.
  - apply consistent_deselectAllRoutes, Hw.
  - exact Hw.
  - unfold on_pathGroups_change, selectPathGroup.
    destruct (bool_decide (value = "")); [exact Hw|].
    destruct (idsToSelect (groupedPaths w) value); [|exact Hw].
    apply consistent_fold_select, Hw.
  - exact Hw.
  - exact Hw.
  - destruct (button_disabled w); [exact Hw|].
    unfold on_generate_click.
    destruct (startPoint w), (endPoint w); exact Hw.
  - destruct (in_flight w !! k); [|exact Hw].
    destruct (on_settled_frame s (set_in_flight (delete k (in_flight w)) w))
      as (Hf & Hs & _).
    apply (consistent_ext w); [unfold selection; rewrite Hf; reflexivity | |
                               exact Hw].
    intros j. unfold selected_flag. rewrite Hs. reflexivity.
Qed.

Lemma consistent_run es w : consistent w → consistent (run w es).
Proof.
  revert w; induction es as [|e es IH]; intros w Hw; [exact Hw|].
  apply IH, consistent_step, Hw.
Qed.

(** ** Hover *)

Lemma hover_consistent_initial page : hover_consistent (initial page).
Proof.
  intros i. unfold hover_flag; simpl. rewrite lookup_empty.
  split; discriminate.
Qed.

Lemma hover_consistent_ext w w' :
  hoveredFeatureId w' = hoveredFeatureId w →
  (∀ i, hover_flag w' i = hover_flag w i) →
  hover_consistent w → hover_consistent w'.
Proof. intros Hh Hf Hw i. rewrite Hh, Hf. apply Hw. Qed.

Lemma hover_flag_featureState w w' :
  featureState w' = featureState w → ∀ i, hover_flag w' i = hover_flag w i.
Proof. intros H i. unfold hover_flag. rewrite H. reflexivity. Qed.

Lemma hover_consistent_on_mousemove fs w :
  hover_consistent w → hover_consistent (on_mousemove fs w).
Proof.
  intros Hw. unfold on_mousemove. destruct fs as [|first fs]; [exact Hw|].
  destruct (hoveredFeatureId w) as [h|] eqn:Eh; cbn zeta;
    match goal with |- context [bool_decide ?P] => destruct (bool_decide P) end;
    intros j; frame; simpl;
    destruct (decide (j = first)) as [->|Hne];
    try (split; reflexivity);
    try (destruct (decide (j = h)) as [->|Hne']);
    try (split; [discriminate | congruence]);
    (split; [intros Hj; apply Hw in Hj; congruence | congruence]).
Qed.

Lemma hover_consistent_on_mouseleave w :
  hover_consistent w → hover_consistent (on_mouseleave w).
Proof.
  intros Hw. unfold on_mouseleave.
  destruct (hoveredFeatureId w) as [h|] eqn:Eh; cbn zeta; intros j; frame;
    simpl.
  - destruct (decide (j = h)) as [->|Hne]; [split; discriminate|].
    split; [intros Hj; apply Hw in Hj; congruence | discriminate].
  - split; [intros Hj; apply Hw in Hj; congruence | discriminate].
Qed.

Lemma on_click_hover lngLat w :
  hoveredFeatureId (on_click lngLat w) = hoveredFeatureId w ∧
  ∀ j, hover_flag (on_click lngLat w) j = hover_flag w j.
Proof.
  unfold on_click. destruct (hoveredFeatureId w) as [h|] eqn:Eh;
    [|split; [assumption | reflexivity]].
  destruct (findIndex (same_id h) (features w)); cbn zeta;
    (split; [exact Eh | intros j; frame; reflexivity]).
Qed.

Lemma fold_select_hover ids w :
  hoveredFeatureId (fold_left select_id ids w) = hoveredFeatureId w ∧
  ∀ j, hover_flag (fold_left select_id ids w) j = hover_flag w j.
Proof.
  revert w; induction ids as [|i ids IH]; intros w; cbn [fold_left];
    [split; reflexivity|].
  destruct (IH (select_id w i)) as [Hh Hf]. rewrite Hh. split.
  - unfold select_id. destruct (find _ _); reflexivity.
  - intros j. rewrite Hf. unfold select_id.
    destruct (find _ _); frame; reflexivity.
Qed.

Lemma deselect_fold_hover l w :
  let w' := fold_left (fun w f => setFeatureState (f_id f)
                                    (FState None (Some false)) w) l w in
  hoveredFeatureId w' = hoveredFeatureId w ∧
  ∀ j, hover_flag w' j = hover_flag w j.
Proof.
  revert w; induction l as [|f l IH]; intros w; cbn [fold_left];
    [split; reflexivity|].
  destruct (IH (setFeatureState (f_id f) (FState None (Some false)) w))
    as [Hh Hf].
  cbn zeta. rewrite Hh. split; [reflexivity|].
  intros j. rewrite Hf. frame. reflexivity.
Qed.

Lemma hover_consistent_step w e :
  hover_consistent w → hover_consistent (step w e).
Proof.
  intros Hw. destruct e; cbn [step]; try exact Hw.
  - apply hover_consistent_on_mousemove, Hw.
  - apply hover_consistent_on_mouseleave, Hw.
  - unfold map_click; cbn zeta.
    destruct (place_markers_frame lngLat (once_click (on_click lngLat w))
                (on_click lngLat w)) as (_ & Hs & Hh & _).
    destruct (on_click_hover lngLat w) as [Hh' Hf'].
    refine (hover_consistent_ext w _ _ _ Hw); [simpl; congruence|].
    intros j. rewrite <- Hf'. apply hover_flag_featureState. exact Hs.
  - unfold deselectAllRoutes; cbn zeta.
    destruct (deselect_fold_hover (features w) w) as [Hh Hf].
    refine (hover_consistent_ext w _ Hh _ Hw).
    intros j. frame. apply Hf.
  - unfold on_pathGroups_change, selectPathGroup.
    destruct (bool_decide (value = "")); [exact Hw|].
    destruct (idsToSelect (groupedPaths w) value) as [ids|]; [|exact Hw].
    destruct (fold_select_hover ids w) as [Hh Hf].
    exact (hover_consistent_ext _ _ Hh Hf Hw).
  - destruct (button_disabled w); [exact Hw|].
    unfold on_generate_click.
    destruct (startPoint w), (endPoint w); exact Hw.
  - destruct (in_flight w !! k); [|exact Hw].
    destruct (on_settled_frame s (set_in_flight (delete k (in_flight w)) w))
      as (_ & Hs & Hh).
    refine (hover_consistent_ext w _ Hh _ Hw).
    apply hover_flag_featureState. exact Hs.
Qed.

Lemma hovered_step w e :
  hoveredFeatureId (step w e) = entered (hoveredFeatureId w) e.
Proof.
  destruct e; cbn [step entered]; try reflexivity.
  - unfold on_mousemove. destruct e_features as [|first fs]; [reflexivity|].
    destruct (hoveredFeatureId w); cbn zeta;
      match goal with |- context [bool_decide ?P] => destruct (bool_decide P) end;
      reflexivity.
  - unfold map_click; cbn zeta.
    destruct (place_markers_frame lngLat (once_click (on_click lngLat w))
                (on_click lngLat w)) as (_ & _ & Hh & _).
    simpl. rewrite Hh. apply on_click_hover.
  - unfold deselectAllRoutes; cbn zeta.
    apply (deselect_fold_hover (features w) w).
  - unfold on_pathGroups_change, selectPathGroup.
    destruct (bool_decide (value = "")); [reflexivity|].
    destruct (idsToSelect (groupedPaths w) value); [|reflexivity].
    apply fold_select_hover.
  - destruct (button_disabled w); [reflexivity|].
    unfold on_generate_click.
    destruct (startPoint w), (endPoint w); reflexivity.
  - destruct (in_flight w !! k); [|reflexivity].
    apply (on_settled_frame s (set_in_flight (delete k (in_flight w)) w)).
Qed.

Lemma hovered_run es w :
  hoveredFeatureId (run w es) = fold_left entered es (hoveredFeatureId w).
Proof.
  revert w; induction es as [|e es IH]; intros w; [reflexivity|].
  cbn [run fold_left]. rewrite <- hovered_step. apply IH.
Qed.

Lemma hover_consistent_run es w :
  hover_consistent w → hover_consistent (run w es).
Proof.
  revert w; induction es as [|e es IH]; intros w Hw; [exact Hw|].
  apply IH, hover_consistent_step, Hw.
Qed.

Lemma on_mousemove_calls a b fs w :
  hoveredFeatureId w = Some a →
  calls (on_mousemove (b :: fs) w)
  = (calls w ++ [SetFeatureState a (FState (Some false) None);
                 SetFeatureState b (FState (Some true) None)])%list.
Proof.
  intros Ha. unfold on_mousemove. rewrite Ha; cbn zeta.
  match goal with |- context [bool_decide ?P] => destruct (bool_decide P) end;
    simpl; rewrite <- app_assoc; reflexivity.
Qed.

(** C5. After any sequence of events, the hover flag is set on exactly
    the feature of the last [mousemove] over a feature that no
    [mouseleave] has followed (on none, if there is no such event), so at
    most one feature carries it; and a [mousemove] onto a feature while
    another is hovered first clears the flag of the old one, then sets the
    flag of the new one. *)
Theorem hover_flag_follows_pointer page es :
  (∀ i, hover_flag (run (initial page) es) i = true
        ↔ last_entered es = Some i) ∧
  (∀ i j, hover_flag (run (initial page) es) i = true →
          hover_flag (run (initial page) es) j = true → i = j) ∧
  (∀ a b fs, hoveredFeatureId (run (initial page) es) = Some a →
     calls (step (run (initial page) es) (MouseMove (b :: fs)))
     = (calls (run (initial page) es)
          ++ [SetFeatureState a (FState (Some false) None);
              SetFeatureState b (FState (Some true) None)])%list).
Proof.
  pose proof (hover_consistent_run es _ (hover_consistent_initial page)) as H.
  pose proof (hovered_run es (initial page)) as Hl.
  change (fold_left entered es (hoveredFeatureId (initial page)))
    with (last_entered es) in Hl.
  split; [|split].
  - intros i. rewrite <- Hl. apply H.
  - intros i j Hi Hj. apply H in Hi. apply H in Hj. congruence.
  - intros a b fs Ha. apply on_mousemove_calls, Ha.
Qed.

(** ** The selection *)

Lemma on_click_removes lngLat w h :
  NoDup (selection w) →
  hoveredFeatureId w = Some h →
  h ∈ selection w →
  h ∉ selection (map_click lngLat w).
Proof.
  intros Hnd Hh Hin.
  destruct (map_click_frame lngLat w) as [Hs _]. rewrite Hs.
  unfold on_click. rewrite Hh.
  destruct (findIndex (same_id h) (features w)) as [k|] eqn:E.
  - destruct (findIndex_Some h _ k E Hnd) as [_ Hk].
    rewrite selection_setFeatureState. unfold selection; simpl.
    rewrite Hk. intros [_ Hne]. congruence.
  - apply findIndex_None in E. contradiction.
Qed.

(** C1. After every sequence of events (clicks that toggle the hovered
    feature, group selections through the dropdown, deselect-all, and
    whatever else happens on the page in between), an identifier is in the
    [features] array if and only if the map's [selected] flag of that
    identifier is true. *)
Theorem selection_iff_selected_flag page es i :
  i ∈ selection (run (initial page) es)
  ↔ selected_flag (run (initial page) es) i = true.
Proof.
  destruct (consistent_run es _ (consistent_initial page)) as [_ H].
  apply H.
Qed.

(** C10. After every sequence of events no identifier occurs twice in
    the [features] array, so the single [splice] of a click on a selected
    feature leaves no entry of that feature behind. *)
Theorem features_ids_unique page es :
  NoDup (selection (run (initial page) es)) ∧
  (∀ h k, findIndex (same_id h) (features (run (initial page) es)) = Some k →
          h ∉ map f_id (splice k (features (run (initial page) es)))) ∧
  (∀ h lngLat, hoveredFeatureId (run (initial page) es) = Some h →
               h ∈ selection (run (initial page) es) →
               h ∉ selection (step (run (initial page) es) (MapClick lngLat))).
Proof.
  destruct (consistent_run es _ (consistent_initial page)) as [Hnd _].
  split; [exact Hnd | split].
  - intros h k Hk. destruct (findIndex_Some h _ k Hk Hnd) as [_ Hin].
    rewrite Hin. intros [_ Hne]. congruence.
  - intros h lngLat Hh Hin. apply on_click_removes; assumption.
Qed.

(** ** Path groups *)

Lemma first_seen_ext s1 s2 l :
  (∀ x, x ∈ s1 ↔ x ∈ s2) → first_seen s1 l = first_seen s2 l.
Proof.
  revert s1 s2; induction l as [|i l IH]; intros s1 s2 H; simpl;
    [reflexivity|].
  rewrite (bool_decide_ext (i ∈ s1) (i ∈ s2)) by apply H.
  destruct (bool_decide (i ∈ s2)); [apply IH, H|].
  f_equal. apply IH. intros x. rewrite !elem_of_cons, H. reflexivity.
Qed.

Lemma elem_of_first_seen seen l x :
  x ∈ first_seen seen l ↔ x ∈ l ∧ x ∉ seen.
Proof.
  revert seen; induction l as [|i l IH]; intros seen; simpl.
  - split; [intros H; inversion H | intros [H _]; inversion H].
  - destruct (bool_decide_reflect (i ∈ seen)) as [Hin|Hnin].
    + rewrite IH, elem_of_cons. split; [tauto|].
      intros [[->|Hx] Hs]; [contradiction | tauto].
    + rewrite !elem_of_cons, IH, not_elem_of_cons. split.
      * intros [->|[Hx [Hne Hs]]]; tauto.
      * intros [[->|Hx] Hs]; [tauto|].
        destruct (decide (x = i)); tauto.
Qed.

Lemma NoDup_first_seen seen l : NoDup (first_seen seen l).
Proof.
  revert seen; induction l as [|i l IH]; intros seen; simpl.
  - apply NoDup_nil_2.
  - destruct (bool_decide (i ∈ seen)); [apply IH|].
    apply NoDup_cons. split; [|apply IH].
    rewrite elem_of_first_seen, not_elem_of_cons. tauto.
Qed.

Lemma select_id_present w i : i ∈ selection w → select_id w i = w.
Proof.
  intros Hin. unfold select_id.
  destruct (find_same_id_Some i (features w) Hin) as [f ->]. reflexivity.
Qed.

Lemma fold_select_present ids w :
  (∀ i, i ∈ ids → i ∈ selection w) → fold_left select_id ids w = w.
Proof.
  induction ids as [|i ids IH]; intros H; simpl; [reflexivity|].
  rewrite select_id_present by (apply H; left).
  apply IH. intros j Hj. apply H. right. exact Hj.
Qed.

(** What the loop over [idsToSelect] appends, and that it writes nothing
    else. *)
Lemma fold_select_appends ids w :
  let new := first_seen (selection w) ids in
  fold_left select_id ids w
  = set_calls
      (calls w ++ map (fun i => SetFeatureState i (FState None (Some true))) new)
      (set_featureState
         (featureState (fold_left select_id ids w))
         (set_features (features w ++ map (fun i => Feature i None) new) w)).
Proof.
  revert w; induction ids as [|i ids IH]; intros w; cbn [fold_left first_seen].
  - cbn zeta. simpl. rewrite !app_nil_r. destruct w; reflexivity.
  - cbn zeta. unfold select_id at 2 4.
    destruct (find (same_id i) (features w)) as [f|] eqn:E.
    + assert (Hin : i ∈ selection w).
      { destruct (decide (i ∈ selection w)) as [H|H]; [exact H|].
        apply find_same_id_None in H. congruence. }
      rewrite (bool_decide_eq_true_2 _ Hin). apply IH.
    + pose proof E as Hn. apply find_same_id_None in Hn.
      rewrite (bool_decide_eq_false_2 _ Hn).
      rewrite IH at 1. cbn zeta.
      rewrite selection_setFeatureState, selection_push. simpl f_id.
      rewrite (first_seen_ext (selection w ++ [i]) (i :: selection w))
        by (intros x; rewrite elem_of_app, list_elem_of_singleton,
              elem_of_cons; tauto).
      simpl. rewrite <- !app_assoc. reflexivity.
Qed.

Lemma selection_fold_select ids w :
  selection (fold_left select_id ids w)
  = (selection w ++ first_seen (selection w) ids)%list.
Proof.
  rewrite fold_select_appends. unfold selection; simpl.
  rewrite map_app, map_map. simpl. rewrite map_id. reflexivity.
Qed.

Lemma groupedPaths_fold_select ids w :
  groupedPaths (fold_left select_id ids w) = groupedPaths w.
Proof. rewrite fold_select_appends. reflexivity. Qed.

Lemma fold_select_twice ids w :
  fold_left select_id ids (fold_left select_id ids w)
  = fold_left select_id ids w.
Proof.
  apply fold_select_present. intros i Hi.
  rewrite selection_fold_select, elem_of_app, elem_of_first_seen.
  destruct (decide (i ∈ selection w)); tauto.
Qed.

Lemma selectPathGroup_twice value w w1 :
  selectPathGroup value w = Ok w1 → selectPathGroup value w1 = Ok w1.
Proof.
  unfold selectPathGroup.
  destruct (bool_decide (value = "")); [intros [= <-]; reflexivity|].
  destruct (idsToSelect (groupedPaths w) value) as [ids|] eqn:E;
    [|discriminate].
  intros [= <-]. rewrite groupedPaths_fold_select, E, fold_select_twice.
  reflexivity.
Qed.

Lemma on_pathGroups_change_twice value w :
  on_pathGroups_change value (on_pathGroups_change value w)
  = on_pathGroups_change value w.
Proof.
  unfold on_pathGroups_change.
  destruct (bool_decide (value = "")); [reflexivity|].
  destruct (selectPathGroup value w) as [w1|m] eqn:E.
  - rewrite (selectPathGroup_twice _ _ _ E). reflexivity.
  - rewrite E. reflexivity.
Qed.

(** C4. Selecting a group twice is selecting it once: the second run of
    [selectPathGroup] with the same reference changes nothing at all (no
    entry is pushed, no flag is written), and the first run leaves the
    entries that were there in place, with their coordinates, pushes only
    identifiers that were not selected, with [coordinates: null], and
    sets the flag of those and of no other. *)
Theorem selectPathGroup_idempotent value w :
  on_pathGroups_change value (on_pathGroups_change value w)
  = on_pathGroups_change value w ∧
  (∀ w1, selectPathGroup value w = Ok w1 → selectPathGroup value w1 = Ok w1) ∧
  ∃ added,
    features (on_pathGroups_change value w) = (features w ++ added)%list ∧
    calls (on_pathGroups_change value w)
    = (calls w ++ map (fun f => SetFeatureState (f_id f)
                                  (FState None (Some true))) added)%list ∧
    NoDup (map f_id added) ∧
    ∀ f, f ∈ added → (f_id f ∉ selection w) ∧ coordinates f = None.
Proof.
  split; [apply on_pathGroups_change_twice|].
  split; [apply selectPathGroup_twice|].
  unfold on_pathGroups_change, selectPathGroup.
  destruct (bool_decide (value = ""));
    [exists []; rewrite !app_nil_r; repeat split;
       [apply NoDup_nil_2 | inversion H | inversion H]|].
  destruct (idsToSelect (groupedPaths w) value) as [ids|];
    [|exists []; rewrite !app_nil_r; repeat split;
        [apply NoDup_nil_2 | inversion H | inversion H]].
  exists (map (fun i => Feature i None) (first_seen (selection w) ids)).
  rewrite fold_select_appends; simpl. rewrite !map_map; simpl.
  split; [reflexivity|]. split; [reflexivity|]. split.
  - rewrite map_id. apply NoDup_first_seen.
  - intros f Hf. apply list_elem_of_fmap in Hf as (i & -> & Hi).
    apply elem_of_first_seen in Hi. simpl. tauto.
Qed.

(** ** Resolution *)

(** C3, as stated, fails: the list the reference [hierarchy:H] resolves
    to names the shared member twice. *)
Lemma resolved_list_repeats :
  idsToSelect shared_member "hierarchy:H"
  = Ok [IdNum 1; IdNum 2; IdNum 2; IdNum 3] ∧
  ¬ NoDup [IdNum 1; IdNum 2; IdNum 2; IdNum 3].
Proof.
  split; [vm_compute; reflexivity|].
  intros H. apply NoDup_cons in H as [_ H]. apply NoDup_cons in H as [H _].
  apply H. left.
Qed.

(** C3, amended. Resolution is a function of the reference and the
    dataset, and what [selectPathGroup] adds to the selection for a
    reference has no duplicates: of the identifiers the reference resolves
    to, those not yet selected are appended, each once, at its first
    occurrence in the resolved list. *)
Theorem resolved_ids_selected_once w value ids :
  idsToSelect (groupedPaths w) value = Ok ids →
  (∀ ids', idsToSelect (groupedPaths w) value = Ok ids' → ids' = ids) ∧
  ∃ w', selectPathGroup value w = Ok w' ∧
        selection w' = (selection w ++ first_seen (selection w) ids)%list ∧
        NoDup (first_seen (selection w) ids) ∧
        ∀ i, i ∈ first_seen (selection w) ids ↔ i ∈ ids ∧ i ∉ selection w.
Proof.
  intros E. split; [intros ids' E'; congruence|].
  unfold selectPathGroup.
  destruct (bool_decide_reflect (value = "")) as [->|Hv].
  - injection E as <-. exists w.
    split; [reflexivity|]. split; [symmetry; apply app_nil_r|].
    split; [apply NoDup_nil_2 | intros i; apply elem_of_first_seen].
  - rewrite E. exists (fold_left select_id ids w).
    split; [reflexivity|]. split; [apply selection_fold_select|].
    split; [apply NoDup_first_seen | intros i; apply elem_of_first_seen].
Qed.

Lemma resolved_ids_selected_once_witness :
  (∀ ids', idsToSelect shared_member "hierarchy:H" = Ok ids' →
           ids' = [IdNum 1; IdNum 2; IdNum 2; IdNum 3]) ∧
  ∃ w', selectPathGroup "hierarchy:H"
          (set_groupedPaths shared_member (initial page0)) = Ok w' ∧
        selection w'
        = ([] ++ first_seen [] [IdNum 1; IdNum 2; IdNum 2; IdNum 3])%list ∧
        NoDup (first_seen [] [IdNum 1; IdNum 2; IdNum 2; IdNum 3]) ∧
        ∀ i, i ∈ first_seen [] [IdNum 1; IdNum 2; IdNum 2; IdNum 3]
             ↔ i ∈ [IdNum 1; IdNum 2; IdNum 2; IdNum 3] ∧ i ∉ [].
Proof.
  apply (resolved_ids_selected_once
           (set_groupedPaths shared_member (initial page0)) "hierarchy:H"
           [IdNum 1; IdNum 2; IdNum 2; IdNum 3]).
  vm_compute. reflexivity.
Defined.

Example shared_member_selected :
  selection (run (initial page0)
               [GroupedPathsLoaded shared_member; PathGroupsChange "hierarchy:H"])
  = [IdNum 1; IdNum 2; IdNum 3].
Proof. vm_compute. reflexivity. Qed.

(** ** References to names the dataset does not have *)

Lemma substring_all s : String.substring 0 (String.length s) s = s.
Proof. induction s as [|c s IH]; simpl; [reflexivity | rewrite IH; reflexivity]. Qed.

Lemma str_drop_app p s : JS.str_drop (String.length p) (p ++ s) = s.
Proof.
  unfold JS.str_drop. induction p as [|c p IH]; simpl.
  - rewrite Nat.sub_0_r. apply substring_all.
  - exact IH.
Qed.

Lemma startsWith_app p s : startsWith p (p ++ s) = true.
Proof.
  induction p as [|c p IH]; simpl; [reflexivity|].
  rewrite bool_decide_eq_true_2 by reflexivity. exact IH.
Qed.

Lemma replace_first_app p s : replace_first p (p ++ s) = s.
Proof.
  destruct p as [|c p];
    [destruct s; simpl; [reflexivity|]; unfold JS.str_drop; simpl; f_equal;
     apply substring_all|].
  remember (String c p) as q. destruct (q ++ s) as [|d t] eqn:E.
  - subst q. discriminate.
  - simpl. rewrite <- E, startsWith_app. apply str_drop_app.
Qed.

Lemma hierarchy_reference name :
  startsWith "hierarchy:" ("hierarchy:" ++ name) = true ∧
  replace_first "hierarchy:" ("hierarchy:" ++ name) = name.
Proof. split; [apply startsWith_app | apply replace_first_app]. Qed.

Lemma path_reference name :
  startsWith "hierarchy:" ("path:" ++ name) = false ∧
  startsWith "path:" ("path:" ++ name) = true ∧
  replace_first "path:" ("path:" ++ name) = name.
Proof.
  split; [reflexivity|].
  split; [apply startsWith_app | apply replace_first_app].
Qed.


(** The walk-through: with the sample dataset loaded, choosing
    [path:leith_walk] selects its three members, with no coordinates, and
    flags each. *)
Example leith_walk_selected :
  features (run (initial page0)
              [GroupedPathsLoaded leith_walk; PathGroupsChange "path:leith_walk"])
  = [Feature (IdNum 101) None; Feature (IdNum 102) None;
     Feature (IdNum 103) None] ∧
  map (selected_flag
         (run (initial page0)
            [GroupedPathsLoaded leith_walk; PathGroupsChange "path:leith_walk"]))
      [IdNum 101; IdNum 102; IdNum 103; IdNum 104]
  = [true; true; true; false].
Proof. vm_compute. split; reflexivity. Qed.


(** The same for every dataset with a hierarchy and every inherited
    name. *)
Lemma inherited_hierarchy_names_throw w h name :
  hierarchy (groupedPaths w) = Some h →
  h !! name = None →
  name ∈ Object_prototype_keys →
  selectPathGroup ("hierarchy:" ++ name) w
  = TypeError "childPaths.forEach is not a function".
Proof.
  intros Hh Hn Hi. unfold selectPathGroup, idsToSelect.
  rewrite bool_decide_eq_false_2 by discriminate.
  destruct (hierarchy_reference name) as (-> & ->).
  rewrite Hh. unfold get_property. rewrite Hn.
  rewrite (bool_decide_eq_true_2 _ Hi). reflexivity.
Qed.

(** ** Route requests *)

(** A click on the generate button with both markers set sends a request
    and leaves the button enabled, whatever is in flight. *)
Lemma on_generate_click_dispatches w s e :
  startPoint w = Some s → endPoint w = Some e →
  button_disabled (on_generate_click w) = false ∧
  in_flight (on_generate_click w)
  = (in_flight w ++ [Request s e (slider w) (selection w)])%list ∧
  dispatched (on_generate_click w) = S (dispatched w).
Proof.
  intros Hs He. unfold on_generate_click. rewrite Hs, He.
  repeat split.
Qed.

Local Open Scope float_scope.

(** C2. With a request pending the generate button is enabled, not
    disabled, and a second click is no no-op: it sends a second request,
    and two are in flight. *)
Lemma second_click_sends_second_request :
  button_disabled pending = false ∧
  length (in_flight pending) = 1%nat ∧
  in_flight (step pending GenerateClick)
  = [Request (-3.25, 55.75) (-3.5, 55.5) "0.5" [];
     Request (-3.25, 55.75) (-3.5, 55.5) "0.5" []] ∧
  dispatched (step pending GenerateClick) = 2%nat.
Proof. vm_compute. repeat split. Qed.

Local Close Scope float_scope.

Lemma on_generate_click_dispatches_witness :
  button_disabled (on_generate_click markers_set) = false ∧
  in_flight (on_generate_click markers_set)
  = (in_flight markers_set
       ++ [Request (-3.25, 55.75)%float (-3.5, 55.5)%float (slider markers_set)
             (selection markers_set)])%list ∧
  dispatched (on_generate_click markers_set) = S (dispatched markers_set).
Proof.
  apply (on_generate_click_dispatches markers_set); reflexivity.
Defined.

(** A request that fails, or is answered with a status outside 200 to
    299 or with a body that is no JSON, raises the alert and leaves the
    route, the panel and everything else but the list of requests in
    flight as they were. *)
Theorem failed_response_alerts w k r s :
  in_flight w !! k = Some r →
  (s = NetworkError ∨
   (∃ status body, s = Response status body ∧ response_ok status = false) ∨
   (∃ status, s = Response status None)) →
  step w (Settled k s)
  = set_alerts (alerts w ++ [route_error])
      (set_in_flight (delete k (in_flight w)) w).
Proof.
  intros Hk Hs. cbn [step]. rewrite Hk. unfold on_settled, alert.
  destruct Hs as [-> | [(status & body & -> & Hok) | (status & ->)]].
  - reflexivity.
  - rewrite Hok. reflexivity.
  - destruct (response_ok status); reflexivity.
Qed.

Lemma failed_response_alerts_witness :
  step pending (Settled 0 (Response 500 None))
  = set_alerts (alerts pending ++ [route_error])
      (set_in_flight (delete 0%nat (in_flight pending)) pending).
Proof.
  apply (failed_response_alerts pending 0
           (Request (-3.25, 55.75)%float (-3.5, 55.5)%float "0.5" [])
           (Response 500 None)).
  - reflexivity.
  - right. left. exists 500, None. split; reflexivity.
Defined.

(** C6. A click on the generate button while the start or the end marker
    is not set shows the alert and does nothing else: no request is sent,
    none is in flight that was not, and every other part of the page
    (selection, markers, route, button) is as it was. *)
Theorem generate_without_markers_alerts w :
  startPoint w = None ∨ endPoint w = None →
  on_generate_click w
  = set_alerts (alerts w ++ ["Please set both start and end points."]) w ∧
  dispatched (on_generate_click w) = dispatched w ∧
  in_flight (on_generate_click w) = in_flight w ∧
  (button_disabled w = false →
   step w GenerateClick
   = set_alerts (alerts w ++ ["Please set both start and end points."]) w).
Proof.
  intros H.
  assert (E : on_generate_click w
              = set_alerts
                  (alerts w ++ ["Please set both start and end points."]) w).
  { unfold on_generate_click, alert.
    destruct H as [-> | ->]; [reflexivity|].
    destruct (startPoint w); reflexivity. }
  rewrite E. repeat split. intros Hb. cbn [step]. rewrite Hb. exact E.
Qed.

Lemma generate_without_markers_alerts_witness :
  on_generate_click (initial page0)
  = set_alerts
      (alerts (initial page0) ++ ["Please set both start and end points."])
      (initial page0) ∧
  dispatched (on_generate_click (initial page0)) = dispatched (initial page0) ∧
  in_flight (on_generate_click (initial page0)) = in_flight (initial page0) ∧
  (button_disabled (initial page0) = false →
   step (initial page0) GenerateClick
   = set_alerts
       (alerts (initial page0) ++ ["Please set both start and end points."])
       (initial page0)).
Proof.
  apply (generate_without_markers_alerts (initial page0)).
  left. reflexivity.
Defined.

(** C8. When a request in flight settles with a successful status: a body
    with a [geojson] member puts that member on the route layer, writes
    the two texts and shows the panel; a bare feature collection is put on
    the route layer as it is, and the texts and the visibility of the
    panel stay as they were.  Neither raises an alert. *)
Theorem successful_response_rendered w k r status :
  in_flight w !! k = Some r →
  response_ok status = true →
  (∀ geojson d t,
     route (step w (Settled k (Response status (Some (WithGeojson geojson d t)))))
     = geojson ∧
     routeDistance
       (step w (Settled k (Response status (Some (WithGeojson geojson d t)))))
     = distanceText d ∧
     routeTime
       (step w (Settled k (Response status (Some (WithGeojson geojson d t)))))
     = timeText t ∧
     routeInfo_hidden
       (step w (Settled k (Response status (Some (WithGeojson geojson d t)))))
     = false ∧
     alerts
       (step w (Settled k (Response status (Some (WithGeojson geojson d t)))))
     = alerts w) ∧
  (∀ data,
     route (step w (Settled k (Response status (Some (Bare data))))) = data ∧
     routeDistance (step w (Settled k (Response status (Some (Bare data)))))
     = routeDistance w ∧
     routeTime (step w (Settled k (Response status (Some (Bare data)))))
     = routeTime w ∧
     routeInfo_hidden (step w (Settled k (Response status (Some (Bare data)))))
     = routeInfo_hidden w ∧
     alerts (step w (Settled k (Response status (Some (Bare data)))))
     = alerts w).
Proof.
  intros Hk Hs. split; intros; cbn [step on_settled]; rewrite Hk, Hs;
    repeat split.
Qed.

Local Open Scope float_scope.

Lemma successful_response_rendered_witness :
  routeDistance
    (step pending (Settled 0 (Response 200 (Some (WithGeojson [] 2500 400)))))
  = "2.5 km" ∧
  routeTime
    (step pending (Settled 0 (Response 200 (Some (WithGeojson [] 2500 400)))))
  = "7 min" ∧
  routeInfo_hidden
    (step pending (Settled 0 (Response 200 (Some (WithGeojson [] 2500 400)))))
  = false ∧
  routeInfo_hidden
    (step pending (Settled 0 (Response 200 (Some (Bare [])))))
  = true.
Proof.
  destruct (successful_response_rendered pending 0
              (Request (-3.25, 55.75) (-3.5, 55.5) "0.5" []) 200
              eq_refl eq_refl) as [Hm Hb].
  destruct (Hm [] 2500 400) as (_ & Hd & Ht & Hh & _).
  destruct (Hb []) as (_ & _ & _ & Hh' & _).
  rewrite Hd, Ht, Hh, Hh'. vm_compute. repeat split.
Defined.

(** ** The texts of the panel *)

(** [t >= 3600] implies [t >= 60]. *)
Lemma ge_3600_ge_60 t : JS.ge t 3600 = true → JS.ge t 60 = true.
Proof.
  unfold JS.ge. rewrite !leb_spec.
  replace (Prim2SF 3600) with (S754_finite false 7916483719987200 (-41))
    by (vm_compute; reflexivity).
  replace (Prim2SF 60) with (S754_finite false 8444249301319680 (-47))
    by (vm_compute; reflexivity).
  unfold SFleb, SFcompare.
  destruct (Prim2SF t) as [s|s| |s m e]; try (destruct s); try discriminate;
    try reflexivity.
  destruct (Z.compare_spec (-41) e) as [<-|Hlt|Hgt]; try discriminate.
  - reflexivity.
  - intros _. destruct (Z.compare_spec (-47) e) as [<-|Hlt'|Hgt'];
      [lia | reflexivity | lia].
Qed.

Lemma checked_range (f : nat → bool) a len (n : Z) :
  forallb f (seq a len) = true →
  (Z.of_nat a <= n < Z.of_nat a + Z.of_nat len)%Z →
  f (Z.to_nat n) = true.
Proof.
  intros H Hn. rewrite forallb_forall in H. apply H, in_seq. lia.
Qed.

Local Close Scope float_scope.

(** * More of the script *)

(** ** Group selection *)

Lemma on_pathGroups_change_path w name :
  on_pathGroups_change ("path:" ++ name) w
  = fold_left select_id (extractIdsFromPath (groupedPaths w) name) w.
Proof.
  unfold on_pathGroups_change, selectPathGroup, idsToSelect.
  rewrite !bool_decide_eq_false_2 by discriminate.
  destruct (path_reference name) as (-> & -> & ->). reflexivity.
Qed.

Lemma extractIdsFromPath_array g ps name items :
  paths g = Some ps → ps !! name = Some (PathArray items) →
  extractIdsFromPath g name = flat_map item_ids items.
Proof.
  intros Hp Hn. unfold extractIdsFromPath, get_property.
  rewrite Hp, Hn. reflexivity.
Qed.

(** On a page where nothing is selected yet, choosing a group of the
    loaded dataset makes [features] the ids of its members (nested arrays
    flattened, in order, each id once), all with [coordinates: null], and
    the selected flag is set on exactly those ids. *)
Theorem group_selected_on_fresh_page page data ps name items :
  paths data = Some ps →
  ps !! name = Some (PathArray items) →
  features (run (initial page)
              [GroupedPathsLoaded data; PathGroupsChange ("path:" ++ name)])
  = map (fun i => Feature i None) (first_seen [] (flat_map item_ids items)) ∧
  ∀ i, selected_flag
         (run (initial page)
            [GroupedPathsLoaded data; PathGroupsChange ("path:" ++ name)]) i
       = true
       ↔ i ∈ flat_map item_ids items.
Proof.
  intros Hp Hn.
  assert (Hf : features
                 (run (initial page)
                    [GroupedPathsLoaded data;
                     PathGroupsChange ("path:" ++ name)])
               = map (fun i => Feature i None)
                   (first_seen [] (flat_map item_ids items))).
  { cbn [run fold_left step]. rewrite on_pathGroups_change_path.
    cbn [on_groupedPaths_loaded]. simpl groupedPaths.
    rewrite (extractIdsFromPath_array _ _ _ _ Hp Hn).
    rewrite fold_select_appends. reflexivity. }
  split; [exact Hf|]. intros i.
  destruct (consistent_run
              [GroupedPathsLoaded data; PathGroupsChange ("path:" ++ name)]
              _ (consistent_initial page)) as [_ Hiff].
  rewrite <- Hiff. unfold selection. rewrite Hf, map_map; simpl.
  rewrite map_id, elem_of_first_seen. split; [tauto|].
  intros Hi. split; [exact Hi | apply not_elem_of_nil].
Qed.

Lemma group_selected_on_fresh_page_witness :
  features (run (initial page0)
              [GroupedPathsLoaded leith_walk; PathGroupsChange "path:leith_walk"])
  = [Feature (IdNum 101) None; Feature (IdNum 102) None;
     Feature (IdNum 103) None].
Proof.
  refine (proj1 (group_selected_on_fresh_page page0 leith_walk
                   {[ "leith_walk" :=
                        PathArray [ItemMember (Member (Some (IdNum 101)));
                                   ItemMember (Member (Some (IdNum 102)));
                                   ItemMember (Member (Some (IdNum 103)))] ]}
                   "leith_walk"
                   [ItemMember (Member (Some (IdNum 101)));
                    ItemMember (Member (Some (IdNum 102)));
                    ItemMember (Member (Some (IdNum 103)))]
                   eq_refl _)).
  vm_compute. reflexivity.
Defined.

(** Choosing a hierarchy is choosing its child groups one after the
    other, in the order the hierarchy lists them. *)
Theorem hierarchy_is_its_children w h name children :
  hierarchy (groupedPaths w) = Some h →
  h !! name = Some children →
  on_pathGroups_change ("hierarchy:" ++ name) w
  = fold_left (fun w childPath => on_pathGroups_change ("path:" ++ childPath) w)
      children w.
Proof.
  intros Hh Hn.
  assert (E : on_pathGroups_change ("hierarchy:" ++ name) w
              = fold_left select_id
                  (flat_map (extractIdsFromPath (groupedPaths w)) children) w).
  { unfold on_pathGroups_change, selectPathGroup, idsToSelect.
    rewrite !bool_decide_eq_false_2 by discriminate.
    destruct (hierarchy_reference name) as (-> & ->).
    rewrite Hh. unfold get_property. rewrite Hn. reflexivity. }
  rewrite E. clear E Hh Hn.
  generalize (eq_refl (groupedPaths w)).
  generalize (groupedPaths w) at 1 3 as g. intros g.
  revert w. induction children as [|c cs IH]; intros w Hg; [reflexivity|].
  cbn [flat_map fold_left]. rewrite fold_left_app, on_pathGroups_change_path.
  rewrite <- Hg. apply IH. rewrite groupedPaths_fold_select. exact Hg.
Qed.

Lemma hierarchy_is_its_children_witness :
  on_pathGroups_change ("hierarchy:" ++ "H")
    (set_groupedPaths shared_member (initial page0))
  = fold_left (fun w childPath => on_pathGroups_change ("path:" ++ childPath) w)
      ["G1"; "G2"] (set_groupedPaths shared_member (initial page0)).
Proof.
  apply (hierarchy_is_its_children
           (set_groupedPaths shared_member (initial page0))
           {[ "H" := ["G1"; "G2"] ]} "H" ["G1"; "G2"]).
  - reflexivity.
  - vm_compute. reflexivity.
Defined.

Lemma member_ids_truthy m i : i ∈ member_ids m → truthy i = true.
Proof.
  unfold member_ids. destruct (m_id m) as [j|]; [|intros H; inversion H].
  destruct (truthy j) eqn:E; [|intros H; inversion H].
  intros H. apply list_elem_of_singleton in H. congruence.
Qed.

Lemma extractIdsFromPath_truthy g name i :
  i ∈ extractIdsFromPath g name → truthy i = true.
Proof.
  unfold extractIdsFromPath.
  destruct (paths g) as [ps|]; [|intros H; inversion H].
  destruct (get_property ps name) as [[items|]| |];
    try solve [intros H; inversion H].
  intros H. apply list_elem_of_In, in_flat_map in H as (it & _ & H).
  destruct it as [m|sub]; simpl in H.
  - apply list_elem_of_In in H. exact (member_ids_truthy _ _ H).
  - apply in_flat_map in H as (m & _ & H). apply list_elem_of_In in H.
    exact (member_ids_truthy _ _ H).
Qed.

(** A member whose [id] is missing, [0] or the empty string is skipped:
    every id a reference resolves to is truthy, and so is the id of every
    entry a group selection adds to [features]. *)
Theorem group_ids_truthy w value :
  (∀ ids i, idsToSelect (groupedPaths w) value = Ok ids → i ∈ ids →
            truthy i = true) ∧
  (∀ f, f ∈ features (on_pathGroups_change value w) →
        f ∈ features w ∨ truthy (f_id f) = true ∧ coordinates f = None).
Proof.
  assert (H : ∀ ids i, idsToSelect (groupedPaths w) value = Ok ids → i ∈ ids →
                       truthy i = true).
  { intros ids i. unfold idsToSelect.
    destruct (startsWith "hierarchy:" value).
    - destruct (hierarchy (groupedPaths w)) as [h|];
        [|intros [= <-] Hi; inversion Hi].
      destruct (get_property h _) as [children| |];
        [|discriminate|intros [= <-] Hi; inversion Hi].
      intros [= <-] Hi. apply list_elem_of_In, in_flat_map in Hi as (c & _ & Hi).
      apply list_elem_of_In in Hi. exact (extractIdsFromPath_truthy _ _ _ Hi).
    - destruct (startsWith "path:" value);
        [|intros [= <-] Hi; inversion Hi].
      intros [= <-] Hi. exact (extractIdsFromPath_truthy _ _ _ Hi). }
  split; [exact H|]. intros f.
  unfold on_pathGroups_change, selectPathGroup.
  destruct (bool_decide (value = "")); [tauto|].
  destruct (idsToSelect (groupedPaths w) value) as [ids|] eqn:E; [|tauto].
  rewrite fold_select_appends; simpl. rewrite elem_of_app, list_elem_of_fmap.
  intros [Hf|(i & -> & Hi)]; [left; exact Hf | right].
  apply elem_of_first_seen in Hi as [Hi _]. split; [|reflexivity].
  exact (H ids i eq_refl Hi).
Qed.

(** ** Before the dataset has arrived *)

Lemma place_markers_groupedPaths lngLat rs w :
  groupedPaths (fold_left (place_marker lngLat) rs w) = groupedPaths w.
Proof.
  revert w; induction rs as [|r rs IH]; intros w; [reflexivity|].
  cbn [fold_left]. rewrite IH. destruct r; reflexivity.
Qed.

Lemma deselect_fold_groupedPaths l w :
  groupedPaths (fold_left (fun w f => setFeatureState (f_id f)
                                        (FState None (Some false)) w) l w)
  = groupedPaths w.
Proof.
  revert w; induction l as [|f l IH]; intros w; [reflexivity|].
  cbn [fold_left]. rewrite IH. reflexivity.
Qed.

Lemma groupedPaths_step w e :
  (∀ data, e ≠ GroupedPathsLoaded data) →
  groupedPaths (step w e) = groupedPaths w.
Proof.
  intros He. destruct e; cbn [step]; try reflexivity.
  - unfold on_mousemove. destruct e_features; [reflexivity|].
    destruct (hoveredFeatureId w); cbn zeta;
      match goal with |- context [bool_decide ?P] => destruct (bool_decide P) end;
      reflexivity.
  - unfold on_mouseleave. destruct (hoveredFeatureId w); reflexivity.
  - unfold map_click; cbn zeta. simpl. rewrite place_markers_groupedPaths.
    unfold on_click. destruct (hoveredFeatureId w); [|reflexivity].
    destruct (findIndex _ _); reflexivity.
  - unfold deselectAllRoutes; cbn zeta. simpl.
    apply deselect_fold_groupedPaths.
  - unfold on_pathGroups_change, selectPathGroup.
    destruct (bool_decide _); [reflexivity|].
    destruct (idsToSelect _ _); [|reflexivity].
    apply groupedPaths_fold_select.
  - exfalso. exact (He data eq_refl).
  - destruct (button_disabled w); [reflexivity|]. unfold on_generate_click.
    destruct (startPoint w), (endPoint w); reflexivity.
  - destruct (in_flight w !! k); [|reflexivity]. unfold on_settled.
    destruct s as [|status [[g d t|fc]|]]; try destruct (response_ok status);
      reflexivity.
Qed.

Lemma no_dataset_returns w value :
  groupedPaths w = Grouped None None → selectPathGroup value w = Ok w.
Proof.
  intros Hg. unfold selectPathGroup, idsToSelect.
  rewrite Hg. unfold extractIdsFromPath. cbn [hierarchy paths].
  destruct (bool_decide _); [reflexivity|].
  destruct (startsWith "hierarchy:" value); [reflexivity|].
  destruct (startsWith "path:" value); reflexivity.
Qed.

Lemma no_dataset_noop w value :
  groupedPaths w = Grouped None None → on_pathGroups_change value w = w.
Proof.
  intros Hg. unfold on_pathGroups_change.
  rewrite (no_dataset_returns w value Hg).
  destruct (bool_decide _); reflexivity.
Qed.

(** As long as no dataset has been assigned to [groupedPaths] (the fetch
    is pending, or it failed before the assignment), [selectPathGroup]
    returns normally for every value, without throwing, and a change of
    the dropdown changes nothing on the page, whatever its value is and
    whatever happened before. *)
Theorem dropdown_before_dataset page es value :
  (∀ data, GroupedPathsLoaded data ∉ es) →
  selectPathGroup value (run (initial page) es) = Ok (run (initial page) es) ∧
  step (run (initial page) es) (PathGroupsChange value) = run (initial page) es.
Proof.
  intros Hes.
  assert (H : ∀ w, groupedPaths w = Grouped None None →
                   groupedPaths (run w es) = Grouped None None).
  { induction es as [|e es IH]; intros w Hw; [exact Hw|].
    cbn [run fold_left]. apply IH.
    - intros data Hin. apply (Hes data). right. exact Hin.
    - rewrite groupedPaths_step; [exact Hw|].
      intros data ->. apply (Hes data). left. }
  split.
  - apply no_dataset_returns, H. reflexivity.
  - cbn [step]. apply no_dataset_noop, H. reflexivity.
Qed.

Lemma dropdown_before_dataset_witness :
  selectPathGroup "hierarchy:toString"
    (run (initial page0) [MouseMove [IdNum 7]; MapClick (0, 0)%float])
  = Ok (run (initial page0) [MouseMove [IdNum 7]; MapClick (0, 0)%float]) ∧
  step (run (initial page0) [MouseMove [IdNum 7]; MapClick (0, 0)%float])
       (PathGroupsChange "hierarchy:toString")
  = run (initial page0) [MouseMove [IdNum 7]; MapClick (0, 0)%float].
Proof.
  apply (dropdown_before_dataset page0
           [MouseMove [IdNum 7]; MapClick (0, 0)%float] "hierarchy:toString").
  intros data H. apply elem_of_cons in H as [H|H]; [discriminate|].
  apply elem_of_cons in H as [H|H]; [discriminate | inversion H].
Defined.

(** ** Clicks *)

Lemma features_map_click lngLat w :
  features (map_click lngLat w) = features (on_click lngLat w).
Proof.
  unfold map_click; cbn zeta.
  destruct (place_markers_frame lngLat (once_click (on_click lngLat w))
              (on_click lngLat w)) as (Hf & _).
  simpl. exact Hf.
Qed.

Lemma hovered_map_click lngLat w :
  hoveredFeatureId (map_click lngLat w) = hoveredFeatureId w.
Proof. exact (hovered_step w (MapClick lngLat)). Qed.

Lemma findIndex_app_fresh h l c :
  h ∉ map f_id l →
  findIndex (same_id h) (l ++ [Feature h c]) = Some (length l).
Proof.
  induction l as [|f l IH]; intros Hh; simpl.
  - unfold same_id; simpl. rewrite bool_decide_eq_true_2 by reflexivity.
    reflexivity.
  - simpl in Hh. apply not_elem_of_cons in Hh as [Hne Hh].
    unfold same_id at 1. rewrite bool_decide_eq_false_2 by congruence.
    rewrite (IH Hh). reflexivity.
Qed.

Lemma splice_app_last l f : splice (length l) (l ++ [f]) = l.
Proof.
  unfold splice. rewrite take_app_length.
  rewrite drop_ge by (rewrite length_app; simpl; lia).
  apply app_nil_r.
Qed.

Lemma map_click_result p w h :
  hoveredFeatureId w = Some h →
  hoveredFeatureId (map_click p w) = Some h ∧
  match findIndex (same_id h) (features w) with
  | Some k =>
      features (map_click p w) = splice k (features w) ∧
      ∀ i, selected_flag (map_click p w) i
           = if decide (i = h) then false else selected_flag w i
  | None =>
      features (map_click p w) = (features w ++ [Feature h (Some p)])%list ∧
      ∀ i, selected_flag (map_click p w) i
           = if decide (i = h) then true else selected_flag w i
  end.
Proof.
  intros Hh. split; [rewrite hovered_map_click; exact Hh|].
  destruct (map_click_frame p w) as [_ Hf].
  rewrite features_map_click. unfold on_click in *. rewrite Hh in *.
  destruct (findIndex (same_id h) (features w)); cbn zeta in *;
    (split; [reflexivity|]); intros i; rewrite Hf, selected_flag_select;
    reflexivity.
Qed.

(** Two clicks on the same hovered feature cancel out: the selection has
    the same members and every selected flag is as before.  If the feature
    was not selected, [features] is exactly as before; if it was, its
    entry has moved to the end and carries the coordinates of the second
    click. *)
Theorem click_twice w h p1 p2 :
  consistent w →
  hoveredFeatureId w = Some h →
  (∀ i, i ∈ selection (run w [MapClick p1; MapClick p2]) ↔ i ∈ selection w) ∧
  (∀ i, selected_flag (run w [MapClick p1; MapClick p2]) i
        = selected_flag w i) ∧
  (h ∉ selection w → features (run w [MapClick p1; MapClick p2]) = features w) ∧
  (h ∈ selection w →
   ∃ k, findIndex (same_id h) (features w) = Some k ∧
        features (run w [MapClick p1; MapClick p2])
        = (splice k (features w) ++ [Feature h (Some p2)])%list).
Proof.
  intros [Hnd Hiff] Hh. cbn [run fold_left step].
  destruct (map_click_result p1 w h Hh) as [Hh1 H1].
  destruct (map_click_result p2 (map_click p1 w) h Hh1) as [_ H2].
  destruct (findIndex (same_id h) (features w)) as [k|] eqn:E.
  - destruct H1 as [F1 S1]. rewrite F1 in H2.
    destruct (findIndex_Some h _ k E Hnd) as [_ Hk].
    assert (Hin : h ∈ selection w).
    { destruct (decide (h ∈ selection w)) as [H|H]; [exact H|].
      apply findIndex_None in H. congruence. }
    assert (E2 : findIndex (same_id h) (splice k (features w)) = None).
    { apply findIndex_None. rewrite Hk. intros [_ Hne]. congruence. }
    rewrite E2 in H2. destruct H2 as [F2 S2].
    split; [|split; [|split]].
    + intros i. unfold selection at 1. rewrite F2, map_app, elem_of_app, Hk.
      simpl. rewrite list_elem_of_singleton. unfold selection in *.
      destruct (decide (i = h)) as [->|Hne]; tauto.
    + intros i. rewrite S2, S1. destruct (decide (i = h)) as [->|Hne];
        [|reflexivity].
      symmetry. apply Hiff, Hin.
    + intros Hn. contradiction.
    + intros _. exists k. split; [reflexivity | exact F2].
  - destruct H1 as [F1 S1]. rewrite F1 in H2.
    pose proof E as Hn. apply findIndex_None in Hn.
    rewrite (findIndex_app_fresh h _ _ Hn), splice_app_last in H2.
    destruct H2 as [F2 S2].
    split; [|split; [|split]].
    + intros i. unfold selection. rewrite F2. reflexivity.
    + intros i. rewrite S2, S1. destruct (decide (i = h)) as [->|Hne];
        [|reflexivity].
      destruct (selected_flag w h) eqn:Es; [|reflexivity].
      apply Hiff in Es. contradiction.
    + intros _. exact F2.
    + intros Hin. contradiction.
Qed.

Lemma click_twice_witness :
  features (run (run (initial page0) [MouseMove [IdNum 7]])
              [MapClick (0, 0)%float; MapClick (1, 1)%float])
  = features (run (initial page0) [MouseMove [IdNum 7]]).
Proof.
  refine (proj1 (proj2 (proj2
            (click_twice (run (initial page0) [MouseMove [IdNum 7]]) (IdNum 7)
               (0, 0)%float (1, 1)%float _ eq_refl))) _).
  - apply consistent_run, consistent_initial.
  - apply not_elem_of_nil.
Defined.

(** ** Deselect all *)

(** Whatever happened on the page before, a click on deselect-all leaves
    [features] empty and no feature with the selected flag set. *)
Theorem deselect_all_clears page es :
  features (step (run (initial page) es) DeselectAllClick) = [] ∧
  ∀ i, selected_flag (step (run (initial page) es) DeselectAllClick) i = false.
Proof.
  split; [reflexivity|]. intros i.
  pose proof (consistent_run es _ (consistent_initial page)) as Hc.
  apply consistent_deselectAllRoutes in Hc as [_ Hiff]. cbn [step].
  destruct (selected_flag (deselectAllRoutes (run (initial page) es)) i) eqn:E;
    [|reflexivity].
  apply Hiff in E. inversion E.
Qed.

(** ** Hover and selection do not touch each other *)

(** Moving the pointer over or off the layer changes neither [features]
    nor any selected flag; clicking, deselecting all and choosing a group
    change neither the hovered feature nor any hover flag. *)
Theorem hover_and_selection_independent w :
  (∀ fs, features (step w (MouseMove fs)) = features w ∧
         ∀ i, selected_flag (step w (MouseMove fs)) i = selected_flag w i) ∧
  (features (step w MouseLeave) = features w ∧
   ∀ i, selected_flag (step w MouseLeave) i = selected_flag w i) ∧
  (∀ e, (match e with
         | MapClick _ | DeselectAllClick | PathGroupsChange _ => True
         | _ => False
         end) →
        hoveredFeatureId (step w e) = hoveredFeatureId w ∧
        ∀ i, hover_flag (step w e) i = hover_flag w i).
Proof.
  split; [|split].
  - intros fs. cbn [step]. split; [|apply on_mousemove_frame].
    unfold on_mousemove. destruct fs; [reflexivity|].
    destruct (hoveredFeatureId w); cbn zeta;
      match goal with |- context [bool_decide ?P] => destruct (bool_decide P) end;
      reflexivity.
  - cbn [step]. split; [|apply on_mouseleave_frame].
    unfold on_mouseleave. destruct (hoveredFeatureId w); reflexivity.
  - intros e He. split; [rewrite hovered_step; destruct e; try contradiction;
                         reflexivity|].
    destruct e; try contradiction; cbn [step].
    + unfold map_click; cbn zeta.
      destruct (place_markers_frame lngLat (once_click (on_click lngLat w))
                  (on_click lngLat w)) as (_ & Hs & _).
      intros i. rewrite <- (proj2 (on_click_hover lngLat w) i).
      apply hover_flag_featureState. exact Hs.
    + unfold deselectAllRoutes; cbn zeta. intros i. frame.
      apply (deselect_fold_hover (features w) w).
    + unfold on_pathGroups_change, selectPathGroup.
      destruct (bool_decide _); [reflexivity|].
      destruct (idsToSelect _ _); [|reflexivity].
      apply fold_select_hover.
Qed.

Lemma hover_and_selection_independent_witness :
  hoveredFeatureId
    (step (run (initial page0) [MouseMove [IdNum 7]]) DeselectAllClick)
  = hoveredFeatureId (run (initial page0) [MouseMove [IdNum 7]]).
Proof.
  exact (proj1 (proj2 (proj2
           (hover_and_selection_independent
              (run (initial page0) [MouseMove [IdNum 7]])))
           DeselectAllClick I)).
Defined.

(** ** Markers *)

#[global] Instance role_eq_dec : EqDecision role.
Proof. solve_decision. Defined.

Lemma place_markers_points lngLat rs w :
  startPoint (fold_left (place_marker lngLat) rs w)
  = (if bool_decide (StartRole ∈ rs) then Some lngLat else startPoint w) ∧
  endPoint (fold_left (place_marker lngLat) rs w)
  = (if bool_decide (EndRole ∈ rs) then Some lngLat else endPoint w) ∧
  cursor (fold_left (place_marker lngLat) rs w)
  = (if bool_decide (rs = []) then cursor w else "").
Proof.
  revert w; induction rs as [|r rs IH]; intros w; cbn [fold_left].
  - rewrite !bool_decide_eq_false_2 by apply not_elem_of_nil.
    rewrite bool_decide_eq_true_2 by reflexivity. repeat split.
  - destruct (IH (place_marker lngLat w r)) as (Hs & He & Hc).
    rewrite Hs, He, Hc. clear IH Hs He Hc.
    destruct r; simpl; repeat case_bool_decide; repeat split;
      try reflexivity; try discriminate; exfalso;
      repeat match goal with
        | H : ¬ (?x ∈ ?x :: _) |- _ => apply H; left
        | H : ¬ (_ ∈ _ :: ?l), H' : _ ∈ ?l |- _ => apply H; right; exact H'
        | H : _ ∈ _ :: _ |- _ =>
            apply elem_of_cons in H as [H|H]; [discriminate|contradiction]
        end.
Qed.

Lemma on_click_markers lngLat w :
  startPoint (on_click lngLat w) = startPoint w ∧
  endPoint (on_click lngLat w) = endPoint w ∧
  once_click (on_click lngLat w) = once_click w ∧
  cursor (on_click lngLat w) = cursor w.
Proof.
  unfold on_click. destruct (hoveredFeatureId w); [|repeat split].
  destruct (findIndex _ _); repeat split.
Qed.

(** A click on the map places a marker for every [setStart] and [setEnd]
    pressed since the last click, all at the clicked point (so pressing
    both and clicking once puts start and end on the same spot), replaces
    markers of the same role, leaves the other marker alone, and no
    placement stays pending.  The same click still toggles the hovered
    feature. *)
Theorem click_places_markers w lngLat :
  startPoint (step w (MapClick lngLat))
  = (if bool_decide (StartRole ∈ once_click w) then Some lngLat
     else startPoint w) ∧
  endPoint (step w (MapClick lngLat))
  = (if bool_decide (EndRole ∈ once_click w) then Some lngLat
     else endPoint w) ∧
  once_click (step w (MapClick lngLat)) = [] ∧
  features (step w (MapClick lngLat)) = features (on_click lngLat w) ∧
  ∀ i, selected_flag (step w (MapClick lngLat)) i
       = selected_flag (on_click lngLat w) i.
Proof.
  cbn [step].
  destruct (on_click_markers lngLat w) as (Hs & He & Ho & _).
  destruct (place_markers_points lngLat (once_click (on_click lngLat w))
              (on_click lngLat w)) as (Ps & Pe & _).
  split; [unfold map_click; simpl; rewrite Ps, Ho, Hs; reflexivity|].
  split; [unfold map_click; simpl; rewrite Pe, Ho, He; reflexivity|].
  split; [reflexivity|].
  split; [apply (features_map_click lngLat w) | apply map_click_frame].
Qed.

(** ** The cursor *)

(** A [mousemove] over at least one feature. *)
Definition entering (e : event) : bool :=
  match e with
  | MouseMove (_ :: _) => true
  | _ => false
  end.

Lemma entering_step w e :
  entering e = true →
  cursor (step w e) = "pointer" ∧
  previous_cursor (step w e)
  = (if bool_decide (cursor w = "pointer") then previous_cursor w
     else cursor w).
Proof.
  destruct e as [[|i fs]| | | | | | | | | | |]; try discriminate. intros _.
  cbn [step]. unfold on_mousemove.
  destruct (hoveredFeatureId w); cbn zeta;
    change (cursor (setFeatureState ?i ?p ?x)) with (cursor x);
    change (cursor (set_hoveredFeatureId ?v ?x)) with (cursor x);
    change (cursor (setFeatureState ?i ?p ?x)) with (cursor x);
    destruct (bool_decide (cursor w = "pointer")); split; reflexivity.
Qed.

Lemma entering_run_pointer es w :
  forallb entering es = true →
  cursor w = "pointer" →
  cursor (run w es) = "pointer" ∧ previous_cursor (run w es) = previous_cursor w.
Proof.
  revert w; induction es as [|e es IH]; intros w Hes Hc; [split; [exact Hc|reflexivity]|].
  simpl in Hes. apply andb_prop in Hes as [He Hes].
  destruct (entering_step w e He) as [Hc1 Hp1].
  rewrite (bool_decide_eq_true_2 _ Hc) in Hp1.
  change (run w (e :: es)) with (run (step w e) es).
  destruct (IH (step w e) Hes Hc1) as [Hc2 Hp2].
  split; [exact Hc2 | rewrite Hp2; exact Hp1].
Qed.

(** Hovering and leaving gives the cursor back: while the pointer moves
    from feature to feature the cursor is [pointer], the style from before
    the first of these moves is remembered once, not overwritten by the
    later ones, and [mouseleave] restores it. *)
Theorem hover_restores_cursor w es :
  es ≠ [] →
  forallb entering es = true →
  cursor w ≠ "pointer" →
  cursor (run w es) = "pointer" ∧
  previous_cursor (run w es) = cursor w ∧
  cursor (step (run w es) MouseLeave) = cursor w.
Proof.
  intros Hne Hes Hc. destruct es as [|e es]; [congruence|].
  simpl in Hes. apply andb_prop in Hes as [He Hes].
  destruct (entering_step w e He) as [Hc1 Hp1].
  rewrite (bool_decide_eq_false_2 _ Hc) in Hp1.
  change (run w (e :: es)) with (run (step w e) es).
  destruct (entering_run_pointer es (step w e) Hes Hc1) as [Hc2 Hp2].
  split; [exact Hc2|]. split; [rewrite Hp2; exact Hp1|].
  cbn [step]. unfold on_mouseleave.
  destruct (hoveredFeatureId (run (step w e) es)); cbn zeta; simpl;
    rewrite Hp2; exact Hp1.
Qed.

Lemma hover_restores_cursor_witness :
  cursor (run (step (initial page0) SetStartClick)
            [MouseMove [IdNum 7]; MouseMove [IdNum 8; IdNum 7]])
  = "pointer" ∧
  previous_cursor (run (step (initial page0) SetStartClick)
                     [MouseMove [IdNum 7]; MouseMove [IdNum 8; IdNum 7]])
  = cursor (step (initial page0) SetStartClick) ∧
  cursor (step (run (step (initial page0) SetStartClick)
                  [MouseMove [IdNum 7]; MouseMove [IdNum 8; IdNum 7]])
            MouseLeave)
  = cursor (step (initial page0) SetStartClick).
Proof.
  apply (hover_restores_cursor (step (initial page0) SetStartClick)
           [MouseMove [IdNum 7]; MouseMove [IdNum 8; IdNum 7]]).
  - discriminate.
  - reflexivity.
  - discriminate.
Defined.

Lemma previous_cursor_map_click lngLat w :
  previous_cursor (map_click lngLat w) = previous_cursor w.
Proof.
  unfold map_click; cbn zeta.
  change (previous_cursor (set_once_click ?v ?x)) with (previous_cursor x).
  assert (Hx : previous_cursor (on_click lngLat w) = previous_cursor w).
  { unfold on_click. destruct (hoveredFeatureId w); [|reflexivity].
    destruct (findIndex _ _); reflexivity. }
  rewrite <- Hx. generalize (once_click (on_click lngLat w)).
  generalize (on_click lngLat w). intros x l. revert x.
  induction l as [|r l IH]; intros x; [reflexivity|].
  cbn [fold_left]. rewrite IH. destruct r; reflexivity.
Qed.

(** A marker placed while the pointer is over a feature: the click resets
    the cursor, and the next [mouseleave] brings the crosshair back although
    no placement is pending any more. *)
Theorem crosshair_returns_after_placement w i fs lngLat :
  startPoint (run w [SetStartClick; MouseMove (i :: fs); MapClick lngLat])
  = Some lngLat ∧
  cursor (run w [SetStartClick; MouseMove (i :: fs); MapClick lngLat]) = "" ∧
  once_click
    (run w [SetStartClick; MouseMove (i :: fs); MapClick lngLat; MouseLeave])
  = [] ∧
  cursor
    (run w [SetStartClick; MouseMove (i :: fs); MapClick lngLat; MouseLeave])
  = "crosshair".
Proof.
  set (w1 := step w SetStartClick).
  set (w2 := step w1 (MouseMove (i :: fs))).
  assert (Ho2 : once_click w2 = (once_click w ++ [StartRole])%list).
  { unfold w2, w1. cbn [step]. unfold on_mousemove.
    destruct (hoveredFeatureId (setMarker StartRole w)); cbn zeta;
      match goal with |- context [bool_decide ?P] => destruct (bool_decide P) end;
      reflexivity. }
  destruct (entering_step w1 (MouseMove (i :: fs)) eq_refl) as [_ Hp2].
  rewrite bool_decide_eq_false_2 in Hp2 by discriminate.
  fold w2 in Hp2. change (cursor w1) with "crosshair" in Hp2.
  destruct (on_click_markers lngLat w2) as (_ & _ & Ho & _).
  destruct (place_markers_points lngLat (once_click (on_click lngLat w2))
              (on_click lngLat w2)) as (Ps & _ & Pc).
  rewrite Ho, Ho2 in Ps, Pc.
  rewrite bool_decide_eq_true_2 in Ps
    by (apply elem_of_app; right; left).
  rewrite bool_decide_eq_false_2 in Pc
    by (destruct (once_click w); discriminate).
  assert (Hp3 : previous_cursor (map_click lngLat w2) = "crosshair")
    by (rewrite previous_cursor_map_click; exact Hp2).
  change (run w [SetStartClick; MouseMove (i :: fs); MapClick lngLat])
    with (map_click lngLat w2).
  change (run w [SetStartClick; MouseMove (i :: fs); MapClick lngLat;
                 MouseLeave])
    with (on_mouseleave (map_click lngLat w2)).
  split; [unfold map_click; simpl; rewrite Ho, Ho2; exact Ps|].
  split; [unfold map_click; simpl; rewrite Ho, Ho2; exact Pc|].
  unfold on_mouseleave.
  destruct (hoveredFeatureId (map_click lngLat w2)); cbn zeta; simpl;
    (split; [reflexivity | exact Hp3]).
Qed.

(** ** The generate button and the requests *)

(** The part of the state that only the route-request code writes. *)
Definition requests_part (w : world) : bool * bool * list request * nat :=
  (button_disabled w, button_pulsing w, in_flight w, dispatched w).

Lemma fold_left_requests_part {A} (f : world → A → world) l w :
  (∀ w a, requests_part (f w a) = requests_part w) →
  requests_part (fold_left f l w) = requests_part w.
Proof.
  intros Hf. revert w; induction l as [|a l IH]; intros w; [reflexivity|].
  cbn [fold_left]. rewrite IH. apply Hf.
Qed.

Lemma select_id_requests_part w i :
  requests_part (select_id w i) = requests_part w.
Proof. unfold select_id. destruct (find _ _); reflexivity. Qed.

(** Nothing but a click on the generate button and the settling of a
    request touches the button or the requests. *)
Lemma requests_part_step w e :
  e ≠ GenerateClick → (∀ k s, e ≠ Settled k s) →
  requests_part (step w e) = requests_part w.
Proof.
  intros Hg Hs. destruct e; cbn [step]; try reflexivity.
  - unfold on_mousemove. destruct e_features; [reflexivity|].
    destruct (hoveredFeatureId w); cbn zeta;
      match goal with |- context [bool_decide ?P] => destruct (bool_decide P) end;
      reflexivity.
  - unfold on_mouseleave. destruct (hoveredFeatureId w); reflexivity.
  - unfold map_click; cbn zeta.
    change (requests_part (set_once_click ?v ?x)) with (requests_part x).
    rewrite fold_left_requests_part by (intros x []; reflexivity).
    unfold on_click. destruct (hoveredFeatureId w); [|reflexivity].
    destruct (findIndex _ _); reflexivity.
  - unfold deselectAllRoutes; cbn zeta.
    change (requests_part (set_features ?v ?x)) with (requests_part x).
    apply fold_left_requests_part. reflexivity.
  - unfold on_pathGroups_change, selectPathGroup.
    destruct (bool_decide _); [reflexivity|].
    destruct (idsToSelect _ _); [|reflexivity].
    apply fold_left_requests_part, select_id_requests_part.
  - congruence.
  - exfalso. exact (Hs k s eq_refl).
Qed.

Lemma step_cases w e :
  e = GenerateClick ∨ (∃ k s, e = Settled k s) ∨
  requests_part (step w e) = requests_part w.
Proof.
  destruct e;
    try (right; right; apply requests_part_step;
         [discriminate | intros; discriminate]).
  - left. reflexivity.
  - right. left. eauto.
Qed.

Lemma in_flight_on_settled s w : in_flight (on_settled s w) = in_flight w.
Proof.
  unfold on_settled. destruct s as [|status [[g d t|fc]|]];
    try destruct (response_ok status); reflexivity.
Qed.

Lemma requests_part_settled w k s :
  button_disabled (step w (Settled k s)) = button_disabled w ∧
  button_pulsing (step w (Settled k s)) = button_pulsing w ∧
  dispatched (step w (Settled k s)) = dispatched w.
Proof.
  cbn [step]. destruct (in_flight w !! k); [|repeat split].
  unfold on_settled. destruct s as [|status [[g d t|fc]|]];
    try destruct (response_ok status); repeat split.
Qed.

(** The generate button is never left disabled or pulsing: after every
    sequence of events, with requests pending or not, it is enabled. *)
Theorem button_always_enabled page es :
  button_disabled (run (initial page) es) = false ∧
  button_pulsing (run (initial page) es) = false.
Proof.
  assert (H : ∀ w, button_disabled w = false → button_pulsing w = false →
                   button_disabled (run w es) = false ∧
                   button_pulsing (run w es) = false).
  { induction es as [|e es IH]; intros w Hd Hp; [split; assumption|].
    change (run w (e :: es)) with (run (step w e) es).
    assert (Hstep : button_disabled (step w e) = false ∧
                    button_pulsing (step w e) = false).
    { destruct (step_cases w e) as [-> | [(k & s & ->) | Hr]].
      - cbn [step]. rewrite Hd. unfold on_generate_click.
        destruct (startPoint w), (endPoint w); split; assumption || reflexivity.
      - destruct (requests_part_settled w k s) as (-> & -> & _).
        split; assumption.
      - injection Hr as -> -> _ _. split; assumption. }
    destruct Hstep. apply IH; assumption. }
  apply H; reflexivity.
Qed.

(** A request is sent by a click on the enabled generate button with both
    markers set, one per click, and by nothing else. *)
Theorem requests_only_from_generate w e :
  dispatched (step w e) = dispatched w ∨
  e = GenerateClick ∧ button_disabled w = false ∧
  is_Some (startPoint w) ∧ is_Some (endPoint w) ∧
  dispatched (step w e) = S (dispatched w).
Proof.
  destruct (step_cases w e) as [-> | [(k & s & ->) | Hr]].
  - cbn [step]. destruct (button_disabled w) eqn:Hd; [left; reflexivity|].
    unfold on_generate_click.
    destruct (startPoint w) as [s|] eqn:Hs; [|left; reflexivity].
    destruct (endPoint w) as [t|] eqn:Ht; [|left; reflexivity].
    right. repeat split; eauto.
  - left. apply requests_part_settled.
  - left. injection Hr as _ _ _ ->. reflexivity.
Qed.

(** Every request in flight carries a list of preferred routes in which
    no identifier occurs twice. *)
Theorem requests_carry_distinct_ids page es r :
  r ∈ in_flight (run (initial page) es) → NoDup (preferred_routes r).
Proof.
  assert (H : ∀ w, consistent w →
                   (∀ r, r ∈ in_flight w → NoDup (preferred_routes r)) →
                   ∀ r, r ∈ in_flight (run w es) → NoDup (preferred_routes r)).
  { induction es as [|e es IH]; intros w Hc Hw; [exact Hw|].
    change (run w (e :: es)) with (run (step w e) es).
    apply IH; [apply consistent_step, Hc|].
    destruct (step_cases w e) as [-> | [(k & s & ->) | Hr]].
    - cbn [step]. destruct (button_disabled w); [exact Hw|].
      unfold on_generate_click.
      destruct (startPoint w), (endPoint w); try exact Hw.
      simpl. intros r' Hr. apply elem_of_app in Hr as [Hr|Hr]; [auto|].
      apply list_elem_of_singleton in Hr. subst r'. simpl. apply Hc.
    - cbn [step]. destruct (in_flight w !! k); [|exact Hw].
      rewrite in_flight_on_settled. simpl. intros r' Hr. apply Hw.
      exact (list_elem_of_delete_inv _ _ _ Hr).
    - injection Hr as _ _ -> _. exact Hw. }
  apply H; [apply consistent_initial | intros r' Hr; inversion Hr].
Qed.

Lemma requests_carry_distinct_ids_witness :
  Request (-3.25, 55.75)%float (-3.5, 55.5)%float "0.5"
    [IdNum 1; IdNum 2; IdNum 3]
  ∈ in_flight
      (run (initial page0)
         [GroupedPathsLoaded shared_member; PathGroupsChange "hierarchy:H";
          SetStartClick; MapClick (-3.25, 55.75)%float; SetEndClick;
          MapClick (-3.5, 55.5)%float; GenerateClick]) ∧
  NoDup (preferred_routes
           (Request (-3.25, 55.75)%float (-3.5, 55.5)%float "0.5"
              [IdNum 1; IdNum 2; IdNum 3])).
Proof.
  assert (H : Request (-3.25, 55.75)%float (-3.5, 55.5)%float "0.5"
                [IdNum 1; IdNum 2; IdNum 3]
              ∈ in_flight
                  (run (initial page0)
                     [GroupedPathsLoaded shared_member;
                      PathGroupsChange "hierarchy:H";
                      SetStartClick; MapClick (-3.25, 55.75)%float;
                      SetEndClick; MapClick (-3.5, 55.5)%float;
                      GenerateClick]))
    by (vm_compute; left).
  split; [exact H|].
  exact (requests_carry_distinct_ids page0 _ _ H).
Defined.

(** ** Clearing the route *)

(** [clearRoute] empties the route source and hides the panel and touches
    nothing else, not the requests in flight either: a request sent before
    the route was cleared still puts its route on the map and shows the
    panel when its answer arrives afterwards. *)
Theorem cleared_route_comes_back w k r status geojson d t :
  in_flight w !! k = Some r →
  response_ok status = true →
  step w ClearRouteClick = set_routeInfo_hidden true (set_route [] w) ∧
  step (step w ClearRouteClick) ClearRouteClick = step w ClearRouteClick ∧
  route (run w [ClearRouteClick;
                Settled k (Response status (Some (WithGeojson geojson d t)))])
  = geojson ∧
  routeInfo_hidden
    (run w [ClearRouteClick;
            Settled k (Response status (Some (WithGeojson geojson d t)))])
  = false.
Proof.
  intros Hk Hs. split; [reflexivity|]. split; [reflexivity|].
  cbn [run fold_left step].
  change (in_flight (clearRoute w)) with (in_flight w). rewrite Hk.
  unfold on_settled. rewrite Hs. split; reflexivity.
Qed.

Lemma cleared_route_comes_back_witness :
  route (run pending
           [ClearRouteClick;
            Settled 0 (Response 200
                         (Some (WithGeojson [[(0, 0)%float]] 2500 400)))])
  = [[(0, 0)%float]].
Proof.
  exact (proj1 (proj2 (proj2
           (cleared_route_comes_back pending 0
              (Request (-3.25, 55.75)%float (-3.5, 55.5)%float "0.5" [])
              200 [[(0, 0)%float]] 2500%float 400%float eq_refl eq_refl)))).
Defined.

(** ** The dropdown *)

Lemma child_options_elem cs o :
  o ∈ child_options cs ↔
  ∃ i c, cs !! i = Some c ∧
         o = OptionEl (Some ("path:" ++ c))
               ((if (i =? length cs - 1)%nat then "└──" else "├──")
                ++ " " ++ label c) false false.
Proof.
  unfold child_options. rewrite elem_of_lookup_imap. split.
  - intros (i & c & -> & Hc). eauto.
  - intros (i & c & Hc & ->). eauto.
Qed.

Lemma hierarchy_options_elem h keys o :
  o ∈ hierarchy_options h keys ↔
  ∃ k, k ∈ keys ∧
       (o = OptionEl (Some ("hierarchy:" ++ k)) (label k) true false ∨
        o ∈ child_options (default [] (h !! k))).
Proof.
  unfold hierarchy_options. rewrite list_elem_of_In, in_flat_map. split.
  - intros (k & Hk & Ho). exists k. rewrite list_elem_of_In. split; [exact Hk|].
    destruct Ho as [<-|Ho]; [left; reflexivity | right].
    apply list_elem_of_In. exact Ho.
  - intros (k & Hk & Ho). exists k. rewrite <- list_elem_of_In.
    split; [exact Hk|].
    destruct Ho as [->|Ho]; [left; reflexivity | right].
    apply list_elem_of_In. exact Ho.
Qed.

Lemma path_options_elem g ko o :
  o ∈ path_options g ko ↔
  ∃ p, p ∈ paths_keys ko ∧ isInHierarchy g ko p = false ∧
       o = OptionEl (Some ("path:" ++ p)) (label p) false false.
Proof.
  unfold path_options. rewrite list_elem_of_In, in_flat_map. split.
  - intros (p & Hp & Ho). exists p. rewrite list_elem_of_In. split; [exact Hp|].
    destruct (isInHierarchy g ko p); [inversion Ho|].
    destruct Ho as [<-|[]]. split; reflexivity.
  - intros (p & Hp & Hi & ->). exists p. rewrite <- list_elem_of_In.
    split; [exact Hp|]. rewrite Hi. left. reflexivity.
Qed.

Lemma isInHierarchy_spec g ko h p :
  keys_of g ko → hierarchy g = Some h →
  isInHierarchy g ko p = true ↔ ∃ k cs, h !! k = Some cs ∧ p ∈ cs.
Proof.
  intros [Hk _] Hh. unfold isInHierarchy. rewrite Hh in *.
  destruct Hk as [_ Hk]. rewrite existsb_exists. split.
  - intros (k & Hin & Hp). apply bool_decide_eq_true in Hp.
    apply list_elem_of_In, Hk in Hin as [cs Hcs]. rewrite Hcs in Hp.
    exists k, cs. split; assumption.
  - intros (k & cs & Hcs & Hp). exists k. split.
    + apply list_elem_of_In, Hk. eauto.
    + apply bool_decide_eq_true. rewrite Hcs. exact Hp.
Qed.

Lemma populate_elem g ko children o :
  o ∈ populatePathGroupsDropdown g ko children ↔
  o ∈ take 1 children ∨
  (∃ h, hierarchy g = Some h ∧ o ∈ hierarchy_options h (hierarchy_keys ko)) ∨
  (is_Some (hierarchy g) ∧ is_Some (paths g) ∧ o = separator) ∨
  (is_Some (paths g) ∧ o ∈ path_options g ko).
Proof.
  unfold populatePathGroupsDropdown. rewrite !elem_of_app.
  assert (HA : o ∈ match hierarchy g with
                   | Some h => hierarchy_options h (hierarchy_keys ko)
                   | None => []
                   end
               ↔ ∃ h, hierarchy g = Some h ∧
                      o ∈ hierarchy_options h (hierarchy_keys ko)).
  { destruct (hierarchy g) as [h|].
    - split; [eauto | intros (h' & [= <-] & H); exact H].
    - split; [intros H; inversion H | intros (h' & [=] & _)]. }
  assert (HB : o ∈ match hierarchy g, paths g with
                   | Some _, Some _ => [separator]
                   | _, _ => []
                   end
               ↔ is_Some (hierarchy g) ∧ is_Some (paths g) ∧ o = separator).
  { destruct (hierarchy g) as [h|], (paths g) as [ps|];
      rewrite ?list_elem_of_singleton; split;
      try (intros H; inversion H; fail);
      try (intros ([? [=]] & _); fail);
      try (intros (_ & [? [=]] & _); fail).
    - intros ->. repeat split; eauto.
    - intros (_ & _ & ->). reflexivity. }
  assert (HC : o ∈ match paths g with
                   | Some _ => path_options g ko
                   | None => []
                   end
               ↔ is_Some (paths g) ∧ o ∈ path_options g ko).
  { destruct (paths g) as [ps|].
    - split; [eauto | intros [_ H]; exact H].
    - split; [intros H; inversion H | intros [[? [=]] _]]. }
  rewrite HA, HB, HC. reflexivity.
Qed.

(** Every option the dropdown gets from a dataset can be chosen safely:
    whatever was appended (a hierarchy entry, a child, a group, even the
    disabled separator) has a value that [selectPathGroup] resolves
    without throwing. *)
Theorem offered_options_resolve g ko children o :
  keys_of g ko →
  o ∈ populatePathGroupsDropdown g ko children →
  o ∈ take 1 children ∨ ∃ ids, idsToSelect g (value_of o) = Ok ids.
Proof.
  intros [Hk _] Ho. apply populate_elem in Ho as [Ho|[Ho|[Ho|Ho]]].
  - left. exact Ho.
  - right. destruct Ho as (h & Hh & Ho).
    apply hierarchy_options_elem in Ho as (k & Hin & [->|Ho]).
    + unfold value_of; simpl opt_value; simpl default. unfold idsToSelect.
      destruct (hierarchy_reference k) as (-> & ->). rewrite Hh.
      unfold lists_keys in Hk. rewrite Hh in Hk. destruct Hk as [_ Hk].
      apply Hk in Hin as [cs Hcs]. unfold get_property. rewrite Hcs. eauto.
    + apply child_options_elem in Ho as (i & c & _ & ->).
      unfold value_of; simpl opt_value; simpl default. unfold idsToSelect.
      destruct (path_reference c) as (-> & -> & ->). eauto.
  - right. destruct Ho as (_ & _ & ->). exists []. reflexivity.
  - right. destruct Ho as [_ Ho].
    apply path_options_elem in Ho as (p & _ & _ & ->).
    unfold value_of; simpl opt_value; simpl default. unfold idsToSelect.
    destruct (path_reference p) as (-> & -> & ->). eauto.
Qed.

Lemma leith_walk_keys : keys_of leith_walk (KeyOrder ["leith"] ["leith_walk"]).
Proof.
  split; simpl; (split; [apply NoDup_singleton|]); intros k;
    rewrite list_elem_of_singleton, lookup_singleton_is_Some; split; congruence.
Qed.

Lemma offered_options_resolve_witness :
  OptionEl (Some "hierarchy:leith") "Leith" true false
  ∈ take 1 [OptionEl (Some "") "Select a path group" false false] ∨
  ∃ ids, idsToSelect leith_walk
           (value_of (OptionEl (Some "hierarchy:leith") "Leith" true false))
         = Ok ids.
Proof.
  apply (offered_options_resolve leith_walk
           (KeyOrder ["leith"] ["leith_walk"])
           [OptionEl (Some "") "Select a path group" false false]
           (OptionEl (Some "hierarchy:leith") "Leith" true false)
           leith_walk_keys).
  vm_compute. right. left.
Defined.



(** ** When [selectPathGroup] throws *)

Lemma startsWith_split p s :
  startsWith p s = true → s = p ++ JS.str_drop (String.length p) s.
Proof.
  revert s. induction p as [|a p IH]; intros s H.
  - unfold JS.str_drop. simpl. rewrite Nat.sub_0_r.
    symmetry. apply substring_all.
  - destruct s as [|b s]; [discriminate|]. simpl in H.
    apply andb_prop in H as [Hab H]. apply bool_decide_eq_true in Hab.
    subst b. change (String a p ++ ?x) with (String a (p ++ x)).
    f_equal. exact (IH s H).
Qed.

Lemma replace_first_prefix p s :
  startsWith p s = true → s = p ++ replace_first p s.
Proof.
  intros H. rewrite (startsWith_split p s H) at 1. f_equal.
  destruct s; simpl; rewrite H; reflexivity.
Qed.

(** [selectPathGroup] throws for one kind of value only: a reference
    [hierarchy:name], on a dataset with a hierarchy object of which [name]
    is no key, where [name] is a name every object inherits from
    [Object.prototype].  A [path:] reference, a value without a tag and
    the empty value never make it throw. *)
Theorem selectPathGroup_throws_iff w value :
  (∃ message, selectPathGroup value w = TypeError message) ↔
  (∃ h name, value = "hierarchy:" ++ name ∧
             hierarchy (groupedPaths w) = Some h ∧
             h !! name = None ∧
             name ∈ Object_prototype_keys).
Proof.
  split.
  - intros [message H]. unfold selectPathGroup in H.
    destruct (bool_decide (value = "")); [discriminate|].
    destruct (idsToSelect (groupedPaths w) value) as [ids|msg] eqn:E;
      [discriminate|].
    unfold idsToSelect in E.
    destruct (startsWith "hierarchy:" value) eqn:Hs.
    + destruct (hierarchy (groupedPaths w)) as [h|] eqn:Hh; [|discriminate].
      exists h, (replace_first "hierarchy:" value).
      split; [apply replace_first_prefix, Hs|]. split; [reflexivity|].
      unfold get_property in E.
      destruct (h !! replace_first "hierarchy:" value); [discriminate|].
      split; [reflexivity|]. case_bool_decide; [assumption | discriminate].
    + destruct (startsWith "path:" value); discriminate.
  - intros (h & name & -> & Hh & Hn & Hi). eexists.
    exact (inherited_hierarchy_names_throw w h name Hh Hn Hi).
Qed.

(** With a hierarchy and groups in the dataset: every hierarchy gets a
    bold entry, every group gets an entry with its [path:] reference, and
    a group that some hierarchy lists as a child is not listed again among
    the groups below the separator. *)
Theorem groups_listed g ko h ps children :
  keys_of g ko →
  hierarchy g = Some h →
  paths g = Some ps →
  (∀ k, is_Some (h !! k) →
        OptionEl (Some ("hierarchy:" ++ k)) (label k) true false
        ∈ populatePathGroupsDropdown g ko children) ∧
  (∀ p, is_Some (ps !! p) →
        ∃ o, o ∈ populatePathGroupsDropdown g ko children ∧
             opt_value o = Some ("path:" ++ p) ∧ disabled o = false) ∧
  (∀ p k cs o, h !! k = Some cs → p ∈ cs → o ∈ path_options g ko →
               opt_value o ≠ Some ("path:" ++ p)).
Proof.
  intros Hko Hh Hp. pose proof Hko as [Hk Hpk].
  unfold lists_keys in Hk, Hpk. rewrite Hh in Hk. rewrite Hp in Hpk.
  destruct Hk as [_ Hk]. destruct Hpk as [_ Hpk].
  split; [|split].
  - intros k Hin. apply populate_elem. right. left. exists h.
    split; [exact Hh|]. apply hierarchy_options_elem. exists k.
    split; [apply Hk, Hin | left; reflexivity].
  - intros p Hin.
    destruct (isInHierarchy g ko p) eqn:Ei.
    + apply (isInHierarchy_spec g ko h p Hko Hh) in Ei as (k & cs & Hcs & Hpc).
      apply list_elem_of_lookup in Hpc as [i Hi].
      exists (OptionEl (Some ("path:" ++ p))
                ((if (i =? length cs - 1)%nat then "└──" else "├──")
                 ++ " " ++ label p) false false).
      split; [|split; reflexivity].
      apply populate_elem. right. left. exists h. split; [exact Hh|].
      apply hierarchy_options_elem. exists k. split; [apply Hk; eauto|].
      right. rewrite Hcs. apply child_options_elem. exists i, p.
      split; [exact Hi | reflexivity].
    + exists (OptionEl (Some ("path:" ++ p)) (label p) false false).
      split; [|split; reflexivity].
      apply populate_elem. right. right. right. split; [rewrite Hp; eauto|].
      apply path_options_elem. exists p.
      split; [apply Hpk, Hin | split; [exact Ei | reflexivity]].
  - intros p k cs o Hcs Hpc Ho Hv.
    apply path_options_elem in Ho as (p' & _ & Ei & ->).
    simpl in Hv. assert (p' = p) as -> by (inversion Hv as [H0]; exact H0).
    assert (Ht : isInHierarchy g ko p = true)
      by (apply (isInHierarchy_spec g ko h p Hko Hh); eauto).
    congruence.
Qed.

Lemma groups_listed_witness :
  OptionEl (Some ("hierarchy:" ++ "leith")) (label "leith") true false
  ∈ populatePathGroupsDropdown leith_walk (KeyOrder ["leith"] ["leith_walk"])
      [OptionEl (Some "") "Select a path group" false false].
Proof.
  refine (proj1 (groups_listed leith_walk (KeyOrder ["leith"] ["leith_walk"])
                   {[ "leith" := ["leith_walk"] ]}
                   {[ "leith_walk" :=
                        PathArray [ItemMember (Member (Some (IdNum 101)));
                                   ItemMember (Member (Some (IdNum 102)));
                                   ItemMember (Member (Some (IdNum 103)))] ]}
                   [OptionEl (Some "") "Select a path group" false false]
                   leith_walk_keys eq_refl eq_refl) "leith" _).
  rewrite lookup_singleton_is_Some. reflexivity.
Defined.

(** The dropdown keeps its first option and nothing else of what it had:
    populating it again, from the same dataset, gives the same options.
    This needs the first option to be there. *)
Theorem repopulate_same g ko children :
  children ≠ [] →
  populatePathGroupsDropdown g ko (populatePathGroupsDropdown g ko children)
  = populatePathGroupsDropdown g ko children ∧
  head (populatePathGroupsDropdown g ko children) = head children ∧
  ∀ others, populatePathGroupsDropdown g ko (take 1 children ++ others)
            = populatePathGroupsDropdown g ko children.
Proof.
  intros Hc. destruct children as [|o0 rest]; [congruence|].
  unfold populatePathGroupsDropdown. repeat split.
Qed.

Lemma repopulate_same_witness :
  head (populatePathGroupsDropdown leith_walk
          (KeyOrder ["leith"] ["leith_walk"])
          [OptionEl (Some "") "Select a path group" false false])
  = head [OptionEl (Some "") "Select a path group" false false].
Proof.
  refine (proj1 (proj2 (repopulate_same leith_walk
                          (KeyOrder ["leith"] ["leith_walk"])
                          [OptionEl (Some "") "Select a path group" false false]
                          _))).
  discriminate.
Defined.

(** Without the first option the same call is not repeatable: the second
    run keeps the first entry of the first run and appends all again. *)
Example repopulate_empty_dropdown :
  map value_of
    (populatePathGroupsDropdown leith_walk (KeyOrder ["leith"] ["leith_walk"])
       (populatePathGroupsDropdown leith_walk
          (KeyOrder ["leith"] ["leith_walk"]) []))
  = ["hierarchy:leith"; "hierarchy:leith"; "path:leith_walk";
     "━━━━━━━━━━━━━━━━━━━━"].
Proof. vm_compute. reflexivity. Qed.

(** ** Labels *)

Lemma toUpperCase_facts c :
  is_word (toUpperCase c) = is_word c ∧
  toUpperCase (toUpperCase c) = toUpperCase c ∧
  (c ≠ "_"%char → toUpperCase c ≠ "_"%char).
Proof.
  destruct c as [[] [] [] [] [] [] [] []];
    (split; [reflexivity | split; [reflexivity|]]);
    intros H; vm_compute; try discriminate; exfalso; apply H; reflexivity.
Qed.

Lemma capitalize_twice b s : capitalize b (capitalize b s) = capitalize b s.
Proof.
  revert b; induction s as [|c s IH]; intros b; [reflexivity|].
  cbn [capitalize].
  destruct (toUpperCase_facts c) as (Hw & Hu & _).
  assert (Hc : is_word (if is_word c && negb b then toUpperCase c else c)
               = is_word c)
    by (destruct (is_word c && negb b); [exact Hw | reflexivity]).
  rewrite Hc, IH. f_equal.
  destruct (is_word c && negb b); [exact Hu | reflexivity].
Qed.

Definition underscore_free (s : string) : Prop :=
  ∀ c, c ∈ String.list_ascii_of_string s → c ≠ "_"%char.

Lemma underscore_free_cons c s :
  underscore_free (String c s) ↔ c ≠ "_"%char ∧ underscore_free s.
Proof.
  unfold underscore_free; simpl. split.
  - intros H. split; [apply H; left | intros d Hd; apply H; right; exact Hd].
  - intros [Hc Hs] d Hd. apply elem_of_cons in Hd as [->|Hd]; auto.
Qed.

Lemma underscores_to_spaces_free s : underscore_free (underscores_to_spaces s).
Proof.
  induction s as [|c s IH]; [intros c H; inversion H|].
  cbn [underscores_to_spaces]. apply underscore_free_cons. split; [|exact IH].
  destruct (bool_decide_reflect (c = "_"%char)); [discriminate | assumption].
Qed.

Lemma underscores_to_spaces_id s :
  underscore_free s → underscores_to_spaces s = s.
Proof.
  induction s as [|c s IH]; intros H; [reflexivity|].
  apply underscore_free_cons in H as [Hc Hs]. cbn [underscores_to_spaces].
  rewrite (bool_decide_eq_false_2 _ Hc), (IH Hs). reflexivity.
Qed.

Lemma capitalize_free b s : underscore_free s → underscore_free (capitalize b s).
Proof.
  revert b; induction s as [|c s IH]; intros b H; [exact H|].
  apply underscore_free_cons in H as [Hc Hs]. cbn [capitalize].
  apply underscore_free_cons. split; [|apply IH, Hs].
  destruct (is_word c && negb b); [|exact Hc].
  apply toUpperCase_facts, Hc.
Qed.

Lemma length_capitalize b s : String.length (capitalize b s) = String.length s.
Proof.
  revert b; induction s as [|c s IH]; intros b; [reflexivity|].
  cbn [capitalize String.length]. rewrite IH. reflexivity.
Qed.

Lemma length_underscores_to_spaces s :
  String.length (underscores_to_spaces s) = String.length s.
Proof.
  induction s as [|c s IH]; [reflexivity|].
  cbn [underscores_to_spaces String.length]. rewrite IH. reflexivity.
Qed.

(** The label of a key is as long as the key, has no underscore left, and
    is its own label: labelling changes nothing the second time. *)
Theorem label_stable key :
  String.length (label key) = String.length key ∧
  underscore_free (label key) ∧
  label (label key) = label key.
Proof.
  unfold label. split; [|split].
  - rewrite length_capitalize. apply length_underscores_to_spaces.
  - apply capitalize_free, underscores_to_spaces_free.
  - rewrite (underscores_to_spaces_id (capitalize false _))
      by apply capitalize_free, underscores_to_spaces_free.
    apply capitalize_twice.
Qed.

Example label_known :
  map label ["leith_walk"; "st_andrews_square_to_picardy_place"; "a1_b2"; "NCN_75"]
  = ["Leith Walk"; "St Andrews Square To Picardy Place"; "A1 B2"; "NCN 75"].
Proof. vm_compute. reflexivity. Qed.

(** ** The version before hierarchies *)

(** On a dataset without hierarchies the tagged reference [path:key]
    selects what the earlier version selected for [key], and the dropdown
    lists the same groups with the same labels, their values tagged with
    [path:]. *)
Theorem path_reference_as_before w gp ko key placeholder :
  hierarchy (groupedPaths w) = None →
  paths (groupedPaths w) = Some gp →
  key ≠ "" →
  selectPathGroup ("path:" ++ key) w = Ok (V1.selectPathGroup gp key w) ∧
  populatePathGroupsDropdown (groupedPaths w) ko [placeholder]
  = placeholder
    :: map (fun o => OptionEl (String.append "path:" <$> opt_value o)
                       (textContent o) (bold o) (disabled o))
         (tail (V1.populatePathGroupsDropdown (paths_keys ko) [placeholder])).
Proof.
  intros Hh Hp Hk. split.
  - unfold selectPathGroup, V1.selectPathGroup, idsToSelect.
    rewrite (bool_decide_eq_false_2 (key = "")) by exact Hk.
    rewrite bool_decide_eq_false_2 by discriminate.
    destruct (path_reference key) as (-> & -> & ->).
    unfold extractIdsFromPath. rewrite Hp.
    destruct (get_property gp key) as [[items|]| |]; reflexivity.
  - unfold populatePathGroupsDropdown, V1.populatePathGroupsDropdown,
      path_options, isInHierarchy.
    rewrite Hh, Hp. simpl. f_equal. rewrite map_map. simpl.
    induction (paths_keys ko) as [|k ks IH]; [reflexivity|].
    simpl. rewrite IH. reflexivity.
Qed.

Lemma path_reference_as_before_witness :
  selectPathGroup ("path:" ++ "leith_walk")
    (set_groupedPaths
       (Grouped None
          (Some {[ "leith_walk" :=
                     PathArray [ItemMember (Member (Some (IdNum 101)))] ]}))
       (initial page0))
  = Ok (V1.selectPathGroup
          {[ "leith_walk" := PathArray [ItemMember (Member (Some (IdNum 101)))] ]}
          "leith_walk"
          (set_groupedPaths
             (Grouped None
                (Some {[ "leith_walk" :=
                           PathArray [ItemMember (Member (Some (IdNum 101)))] ]}))
             (initial page0))).
Proof.
  refine (proj1 (path_reference_as_before
                   (set_groupedPaths
                      (Grouped None
                         (Some {[ "leith_walk" :=
                                    PathArray
                                      [ItemMember (Member (Some (IdNum 101)))] ]}))
                      (initial page0))
                   {[ "leith_walk" :=
                        PathArray [ItemMember (Member (Some (IdNum 101)))] ]}
                   (KeyOrder [] ["leith_walk"]) "leith_walk"
                   (OptionEl (Some "") "Select a path group" false false)
                   eq_refl eq_refl _)).
  discriminate.
Defined.

(** ** Route texts between the whole numbers *)

(** Two finite positive numbers of one binade bracket only numbers of that
    binade. *)
Lemma between_in_binade lo hi d mlo mhi e :
  Prim2SF lo = S754_finite false mlo e →
  Prim2SF hi = S754_finite false mhi e →
  PrimFloat.leb lo d = true →
  PrimFloat.ltb d hi = true →
  ∃ m, Prim2SF d = S754_finite false m e ∧ (Zpos mlo <= Zpos m < Zpos mhi)%Z.
Proof.
  intros Hlo Hhi. rewrite leb_spec, ltb_spec, Hlo, Hhi.
  unfold SFleb, SFltb, SFcompare.
  destruct (Prim2SF d) as [s|s| |s m e']; try (destruct s; discriminate);
    try discriminate.
  destruct s; [discriminate|].
  change (PosDef.Pos.compare_cont Eq ?a ?b) with (Pos.compare a b).
  destruct (Z.compare_spec e e') as [<-|Hlt|Hgt]; [| |discriminate].
  - rewrite Z.compare_refl.
    destruct (Pos.compare_spec mlo m) as [H1|H1|H1]; try discriminate;
      intros _; destruct (Pos.compare_spec m mhi) as [H2|H2|H2];
      try discriminate; intros _; exists m; (split; [reflexivity | lia]).
  - intros _. destruct (Z.compare_spec e' e) as [->|H|H]; try lia; discriminate.
Qed.

Lemma round_of_finite m e k :
  (e < 0)%Z →
  ((2 * k - 1) * 2 ^ (- e) <= 2 * Zpos m < (2 * k + 1) * 2 ^ (- e))%Z →
  Qfloor (Qplus (JS.exact m e) (Qmake 1 2)) = k.
Proof.
  intros He Hm. unfold JS.exact.
  destruct (Z.leb_spec 0 e) as [H|_]; [lia|].
  assert (Hp : (0 < 2 ^ (- e))%Z) by (apply Z.pow_pos_nonneg; lia).
  unfold Qplus, Qfloor; simpl Qnum; simpl Qden.
  rewrite Pos2Z.inj_mul, Z2Pos.id by exact Hp.
  symmetry.
  apply Z.div_unique
    with (r := (Zpos m * 2 + 1 * 2 ^ (- e) - 2 ^ (- e) * 2 * k)%Z).
  - left. lia.
  - lia.
Qed.

Lemma Math_round_of_finite x m e k :
  Prim2SF x = S754_finite false m e →
  (e < 0)%Z → k ≠ 0%Z →
  ((2 * k - 1) * 2 ^ (- e) <= 2 * Zpos m < (2 * k + 1) * 2 ^ (- e))%Z →
  JS.Math_round x = JS.of_integer k.
Proof.
  intros Hx He Hk Hm. unfold JS.Math_round. rewrite Hx.
  destruct (Z.leb_spec 0 e) as [H|_]; [lia|].
  rewrite (round_of_finite m e k He Hm).
  destruct (Z.eqb_spec k 0); [contradiction | reflexivity].
Qed.

Lemma below_not_ge x y m my e :
  Prim2SF x = S754_finite false m e →
  Prim2SF y = S754_finite false my e →
  (Zpos m < Zpos my)%Z →
  JS.ge x y = false.
Proof.
  intros Hx Hy Hm. unfold JS.ge. rewrite leb_spec, Hx, Hy.
  unfold SFleb, SFcompare. rewrite Z.compare_refl.
  change (PosDef.Pos.compare_cont Eq ?a ?b) with (Pos.compare a b).
  rewrite (proj2 (Pos.compare_gt_iff my m)) by lia. reflexivity.
Qed.

Local Open Scope float_scope.

(** [showRouteInfo] picks the unit before it rounds: a distance from 999.5
    up to, and not, 1000 is shown as "1000 m", not in kilometers, and a time
    from 59.5 up to, and not, 60 is shown as "60 sec", not in minutes. *)
Theorem text_reads_next_unit :
  (∀ d, (999.5 <=? d) = true → (d <? 1000) = true →
        distanceText d = "1000 m"%string) ∧
  (∀ t, (59.5 <=? t) = true → (t <? 60) = true →
        timeText t = "60 sec"%string).
Proof.
  split.
  - intros d Hlo Hhi.
    destruct (between_in_binade 999.5 1000 d 8791694975696896
                8796093022208000 (-43)) as (m & Hd & Hm);
      [vm_compute; reflexivity | vm_compute; reflexivity | exact Hlo
      | exact Hhi |].
    unfold distanceText.
    rewrite (below_not_ge d 1000 m 8796093022208000 (-43) Hd);
      [| vm_compute; reflexivity | lia].
    rewrite (Math_round_of_finite d m (-43) 1000 Hd) by lia.
    vm_compute. reflexivity.
  - intros t Hlo Hhi.
    destruct (between_in_binade 59.5 60 t 8373880557142016
                8444249301319680 (-47)) as (m & Ht & Hm);
      [vm_compute; reflexivity | vm_compute; reflexivity | exact Hlo
      | exact Hhi |].
    assert (H60 : JS.ge t 60 = false)
      by (apply (below_not_ge t 60 m 8444249301319680 (-47) Ht);
          [vm_compute; reflexivity | lia]).
    assert (H3600 : JS.ge t 3600 = false).
    { destruct (JS.ge t 3600) eqn:E; [|reflexivity].
      apply ge_3600_ge_60 in E. congruence. }
    unfold timeText. rewrite H3600, H60.
    rewrite (Math_round_of_finite t m (-47) 60 Ht) by lia.
    vm_compute. reflexivity.
Qed.

Lemma text_reads_next_unit_witness :
  distanceText 999.75 = "1000 m"%string ∧ timeText 59.75 = "60 sec"%string.
Proof.
  split.
  - apply (proj1 text_reads_next_unit 999.75); vm_compute; reflexivity.
  - apply (proj2 text_reads_next_unit 59.75); vm_compute; reflexivity.
Defined.

Local Close Scope float_scope.

Lemma digits2_pos_bound m : (Zpos m < 2 ^ Zpos (digits2_pos m))%Z.
Proof.
  induction m as [p IH|p IH|]; cbn [digits2_pos];
    rewrite ?Pos2Z.inj_succ, ?Z.pow_succ_r by lia; lia.
Qed.

(** The significand of a JS number has at most 53 bits. *)
Lemma mantissa_bound x s m e :
  Prim2SF x = S754_finite s m e → (Zpos m < 2 ^ 53)%Z.
Proof.
  intros Hx. pose proof (Prim2SF_valid x) as Hv. rewrite Hx in Hv.
  unfold valid_binary, bounded, canonical_mantissa, fexp in Hv.
  apply andb_prop in Hv as [Hc _]. apply Z.eqb_eq in Hc.
  pose proof (digits2_pos_bound m) as Hd.
  assert (HD : (Zpos (digits2_pos m) <= 53)%Z).
  { unfold emin, emax, prec in Hc. lia. }
  eapply Z.lt_le_trans; [exact Hd|]. apply Z.pow_le_mono_r; lia.
Qed.

Lemma below_bound x y my ey m e :
  Prim2SF y = S754_finite false my ey → (ey < 0)%Z →
  (2 ^ 52 <= Zpos my)%Z →
  Prim2SF x = S754_finite false m e →
  PrimFloat.ltb x y = true →
  (e <= ey)%Z ∧ (Zpos m * 2 ^ (- ey) < Zpos my * 2 ^ (- e))%Z
  ∧ JS.ge x y = false.
Proof.
  intros Hy Hey Hmy2 Hx. pose proof (mantissa_bound x _ _ _ Hx) as Hm.
  unfold JS.ge. rewrite ltb_spec, leb_spec, Hx, Hy.
  unfold SFltb, SFleb, SFcompare.
  change (PosDef.Pos.compare_cont Eq ?a ?b) with (Pos.compare a b).
  rewrite (Z.compare_antisym e ey).
  destruct (Z.compare_spec e ey) as [->|Hlt|Hgt]; simpl CompOpp.
  - rewrite (Pos.compare_antisym m my).
    destruct (Pos.compare_spec m my) as [H|H|H]; try discriminate.
    intros _. split; [lia|]. split; [|reflexivity].
    apply Z.mul_lt_mono_pos_r; [apply Z.pow_pos_nonneg; lia | lia].
  - intros _. split; [lia|]. split; [|reflexivity].
    replace (- e)%Z with ((- ey) + (ey - e))%Z by lia.
    rewrite Z.pow_add_r by lia.
    assert (Hp : (0 < 2 ^ (- ey))%Z) by (apply Z.pow_pos_nonneg; lia).
    assert (H2 : (2 <= 2 ^ (ey - e))%Z).
    { change 2%Z with (2 ^ 1)%Z at 1. apply Z.pow_le_mono_r; lia. }
    assert (H3 : (Zpos m < Zpos my * 2 ^ (ey - e))%Z) by nia.
    rewrite (Z.mul_comm (2 ^ (- ey))), Z.mul_assoc.
    apply Z.mul_lt_mono_pos_r; assumption.
  - discriminate.
Qed.

Lemma exact_negative_exponent m e :
  (e < 0)%Z → JS.exact m e = Qmake (Zpos m) (Z.to_pos (2 ^ (- e))).
Proof.
  intros He. unfold JS.exact. destruct (Z.leb_spec 0 e); [lia | reflexivity].
Qed.

Lemma exact_positive m e : Qlt 0 (JS.exact m e).
Proof.
  unfold JS.exact. destruct (Z.leb_spec 0 e) as [He|He].
  - assert (Hp : (0 < 2 ^ e)%Z) by (apply Z.pow_pos_nonneg; lia).
    unfold Qlt, inject_Z; cbn [Qnum Qden]. nia.
  - unfold Qlt; cbn [Qnum Qden]. lia.
Qed.

Lemma rounded_below m e Y :
  (e < 0)%Z → (Zpos m < Y * 2 ^ (- e))%Z →
  (0 <= Qfloor (Qplus (JS.exact m e) (Qmake 1 2)) <= Y)%Z.
Proof.
  intros He Hm. rewrite (exact_negative_exponent m e He).
  assert (Hp : (0 < 2 ^ (- e))%Z) by (apply Z.pow_pos_nonneg; lia).
  unfold Qplus, Qfloor; simpl Qnum; simpl Qden.
  rewrite Pos2Z.inj_mul, Z2Pos.id by exact Hp. split.
  - apply Z.div_pos; lia.
  - apply Z.lt_succ_r, Z.div_lt_upper_bound; lia.
Qed.

Lemma Math_round_finite x m e :
  Prim2SF x = S754_finite false m e → (e < 0)%Z →
  JS.Math_round x
  = (if (Qfloor (Qplus (JS.exact m e) (Qmake 1 2)) =? 0)%Z then 0%float
     else JS.of_integer (Qfloor (Qplus (JS.exact m e) (Qmake 1 2)))).
Proof.
  intros Hx He. unfold JS.Math_round. rewrite Hx.
  destruct (Z.leb_spec 0 e); [lia | reflexivity].
Qed.

Lemma rounded_texts_checked :
  forallb (fun n => String.eqb
                      (JS.toString (if (Z.of_nat n =? 0)%Z then 0%float
                                    else JS.of_integer (Z.of_nat n)))
                      (JS.decimal (Z.of_nat n)))
          (seq 0 1001) = true.
Proof. vm_compute. reflexivity. Qed.

Lemma rounded_text r :
  (0 <= r <= 1000)%Z →
  JS.toString (if (r =? 0)%Z then 0%float else JS.of_integer r) = JS.decimal r.
Proof.
  intros Hr. pose proof (checked_range _ 0 1001 r rounded_texts_checked) as H.
  cbv beta in H. rewrite Z2Nat.id in H by lia. apply String.eqb_eq, H. lia.
Qed.

Local Open Scope float_scope.

Lemma rounded_below_bound x y my ey Y m e :
  Prim2SF y = S754_finite false my ey → (ey < 0)%Z →
  (2 ^ 52 <= Zpos my)%Z → Zpos my = (Y * 2 ^ (- ey))%Z →
  Prim2SF x = S754_finite false m e →
  (x <? y) = true →
  (e < 0)%Z ∧ JS.ge x y = false ∧
  (0 <= Qfloor (Qplus (JS.exact m e) (Qmake 1 2)) <= Y)%Z.
Proof.
  intros Hy Hey Hmy HY Hx Hlt.
  destruct (below_bound x y my ey m e Hy Hey) as (He & Hm & Hge);
    try assumption.
  split; [lia|]. split; [exact Hge|].
  apply rounded_below; [lia|].
  assert (Hp : (0 < 2 ^ (- ey))%Z) by (apply Z.pow_pos_nonneg; lia).
  rewrite HY in Hm. nia.
Qed.

Lemma rounded_texts_below x v :
  number_value x = Some v →
  Qle 0 v →
  ((x <? 1000) = true →
   distanceText x
   = (JS.decimal (Qfloor (Qplus v (Qmake 1 2))) ++ " m")%string) ∧
  ((x <? 60) = true →
   timeText x
   = (JS.decimal (Qfloor (Qplus v (Qmake 1 2))) ++ " sec")%string).
Proof.
  unfold number_value. intros Hv Hpos.
  destruct (Prim2SF x) as [s|s| |s m e] eqn:Hx; try discriminate.
  - injection Hv as <-.
    assert (H1000 : JS.ge x 1000 = false)
      by (unfold JS.ge; rewrite leb_spec, Hx; reflexivity).
    assert (H60 : JS.ge x 60 = false)
      by (unfold JS.ge; rewrite leb_spec, Hx; reflexivity).
    assert (H3600 : JS.ge x 3600 = false)
      by (unfold JS.ge; rewrite leb_spec, Hx; reflexivity).
    assert (Hr : JS.toString (JS.Math_round x) = "0"%string)
      by (unfold JS.Math_round; rewrite Hx; unfold JS.toString; rewrite Hx;
          reflexivity).
    unfold distanceText, timeText. rewrite H1000, H3600, H60, Hr.
    split; reflexivity.
  - destruct s.
    + injection Hv as <-. exfalso. pose proof (exact_positive m e) as Hp.
      apply Qopp_lt_compat in Hp. apply (Qlt_not_le _ _ Hp). exact Hpos.
    + injection Hv as <-. split; intros Hlt.
      * destruct (rounded_below_bound x 1000 8796093022208000 (-43) 1000 m e)
          as (He & Hge & Hr);
          [vm_compute; reflexivity | reflexivity
          | apply Z.leb_le; vm_compute; reflexivity | vm_compute; reflexivity
          | exact Hx | exact Hlt |].
        unfold distanceText. rewrite Hge, (Math_round_finite x m e Hx He).
        rewrite rounded_text by exact Hr. reflexivity.
      * destruct (rounded_below_bound x 60 8444249301319680 (-47) 60 m e)
          as (He & Hge & Hr);
          [vm_compute; reflexivity | reflexivity
          | apply Z.leb_le; vm_compute; reflexivity | vm_compute; reflexivity
          | exact Hx | exact Hlt |].
        assert (H3600 : JS.ge x 3600 = false).
        { destruct (JS.ge x 3600) eqn:E; [|reflexivity].
          apply ge_3600_ge_60 in E. congruence. }
        unfold timeText. rewrite H3600, Hge, (Math_round_finite x m e Hx He).
        rewrite rounded_text by lia. reflexivity.
Qed.

(** Below the first threshold the texts of [showRouteInfo] are those of the
    exact value rounded half up: for a number that is not negative, with
    value [v], a distance below 1000 reads as the integer [floor (v + 1/2)]
    in decimal and " m", and a time below 60 as that integer and " sec",
    whatever the fraction. *)
Theorem meters_and_seconds_rounded x v :
  number_value x = Some v →
  Qle 0 v →
  ((x <? 1000) = true →
   distanceText x
   = (JS.decimal (Qfloor (Qplus v (Qmake 1 2))) ++ " m")%string) ∧
  ((x <? 60) = true →
   timeText x
   = (JS.decimal (Qfloor (Qplus v (Qmake 1 2))) ++ " sec")%string).
Proof.
  intros Hv Hpos.
  destruct (rounded_texts_below x v Hv Hpos) as [Hmeters Hseconds].
  split; [exact Hmeters | exact Hseconds].
Qed.

Lemma meters_and_seconds_rounded_witness :
  number_value 12.5 = Some (Qmake 7036874417766400 562949953421312) ∧
  Qle 0 (Qmake 7036874417766400 562949953421312) ∧
  distanceText 12.5 = "13 m"%string ∧ timeText 12.5 = "13 sec"%string.
Proof.
  assert (Hv : number_value 12.5
               = Some (Qmake 7036874417766400 562949953421312))
    by (vm_compute; reflexivity).
  assert (Hp : Qle 0 (Qmake 7036874417766400 562949953421312))
    by (vm_compute; discriminate).
  destruct (meters_and_seconds_rounded 12.5 _ Hv Hp) as [Hd Ht].
  split; [exact Hv|]. split; [exact Hp|]. split.
  - rewrite Hd by (vm_compute; reflexivity). vm_compute. reflexivity.
  - rewrite Ht by (vm_compute; reflexivity). vm_compute. reflexivity.
Defined.

Local Close Scope float_scope.

(** ** Numerals *)


















(** ** The checks, on every whole number of their ranges *)



Lemma minutes_checked : all_from minutes_ok 60 3540 = true.
Proof. vm_compute. reflexivity. Qed.


Lemma hours_checked : all_from hours_ok 3600 (Z.to_nat 82800) = true.
Proof. vm_compute. reflexivity. Qed.

(** ** The roundings, by shifts *)

Lemma all_from_spec f a len n :
  all_from f a len = true → (a <= n < a + Z.of_nat len)%Z → f n = true.
Proof.
  revert a. induction len as [|len IH]; intros a H Hn; [lia|].
  cbn [all_from] in H. destruct (f a) eqn:Ha; [|discriminate].
  destruct (Z.eq_dec n a) as [->|Hne]; [exact Ha|].
  apply (IH (a + 1)%Z H). lia.
Qed.

Lemma half_up_shift a k :
  (0 <= k)%Z →
  ((a + 2 ^ k) / (2 ^ k * 2) = Z.shiftr (Z.shiftr a k + 1) 1)%Z.
Proof.
  intros Hk. assert (Hp : (0 < 2 ^ k)%Z) by (apply Z.pow_pos_nonneg; lia).
  rewrite !Z.shiftr_div_pow2 by lia. change (2 ^ 1)%Z with 2%Z.
  rewrite <- Z.div_div by lia. f_equal.
  replace (a + 2 ^ k)%Z with (a + 1 * 2 ^ k)%Z by lia.
  apply Z.div_add. lia.
Qed.

Lemma floor_shift m e :
  (e < 0)%Z → Qfloor (JS.exact m e) = shifted_floor m e.
Proof.
  intros He. unfold JS.exact, shifted_floor.
  destruct (Z.leb_spec 0 e); [lia|].
  assert (Hp : (0 < 2 ^ (- e))%Z) by (apply Z.pow_pos_nonneg; lia).
  unfold Qfloor. rewrite Z2Pos.id by exact Hp.
  rewrite Z.shiftr_div_pow2 by lia. reflexivity.
Qed.

Lemma round_shift m e :
  (e < 0)%Z →
  Qfloor (Qplus (JS.exact m e) (Qmake 1 2)) = shifted_round m e.
Proof.
  intros He. unfold JS.exact, shifted_round.
  destruct (Z.leb_spec 0 e); [lia|].
  assert (Hp : (0 < 2 ^ (- e))%Z) by (apply Z.pow_pos_nonneg; lia).
  unfold Qplus, Qfloor; cbn [Qnum Qden].
  rewrite Pos2Z.inj_mul, Z2Pos.id by exact Hp.
  rewrite <- half_up_shift by lia. f_equal; lia.
Qed.


Lemma toString_of_integer k :
  (0 <= k <= 1000)%Z → JS.toString (JS.of_integer k) = JS.decimal k.
Proof.
  intros Hk. rewrite <- (rounded_text k Hk).
  destruct (Z.eqb_spec k 0) as [->|_]; reflexivity.
Qed.

Lemma floored_text x k :
  (0 <= k <= 1000)%Z → is_value (floored x) k = true →
  JS.toString (JS.Math_floor x) = JS.decimal k.
Proof.
  intros Hk H. unfold floored in H. unfold JS.Math_floor.
  destruct (Prim2SF x) as [s|s| |s m e]; try discriminate.
  destruct s; [discriminate|].
  destruct (Z.ltb_spec e 0) as [He|He]; [|discriminate].
  cbn [is_value] in H. apply Z.eqb_eq in H.
  destruct (Z.leb_spec 0 e); [lia|].
  rewrite floor_shift, H by exact He. apply toString_of_integer, Hk.
Qed.

Lemma rounded_number_text x k :
  (0 <= k <= 1000)%Z → is_value (rounded x) k = true →
  JS.toString (JS.Math_round x) = JS.decimal k.
Proof.
  intros Hk H. unfold rounded in H.
  destruct (Prim2SF x) as [s|s| |s m e] eqn:Hx; try discriminate.
  - destruct s; [discriminate|]. cbn [is_value] in H.
    apply Z.eqb_eq in H. subst k.
    unfold JS.Math_round. rewrite Hx. unfold JS.toString. rewrite Hx.
    reflexivity.
  - destruct s; [discriminate|].
    destruct (Z.ltb_spec e 0) as [He|He]; [|discriminate].
    cbn [is_value] in H. apply Z.eqb_eq in H.
    rewrite (Math_round_finite x m e Hx He), round_shift, H by exact He.
    apply rounded_text, Hk.
Qed.



(** ** Whole numbers of meters and of seconds *)

Local Open Scope float_scope.

Lemma remainder_3600 x n m e :
  Prim2SF x = S754_finite false m e →
  (-41 <= e)%Z →
  Z.shiftl (Zpos m) (e + 41) = Z.shiftl n 41 →
  JS.remainder x 3600 = rest_of_hour n.
Proof.
  intros Hx He Hn. unfold JS.remainder, rest_of_hour. rewrite Hx.
  replace (Prim2SF 3600) with (S754_finite false 7916483719987200 (-41))
    by (vm_compute; reflexivity).
  cbv beta iota zeta. rewrite Z.min_r by lia.
  replace (e - -41)%Z with (e + 41)%Z by lia.
  replace (-41 - -41)%Z with 0%Z by lia.
  rewrite <- Z.shiftl_mul_pow2, Hn, !Z.shiftl_mul_pow2 by lia.
  replace (Zpos 7916483719987200 * 2 ^ 0)%Z with (3600 * 2 ^ 41)%Z
    by reflexivity.
  rewrite Z.mul_mod_distr_r by lia. reflexivity.
Qed.



Lemma whole_minutes n :
  (60 <= n < 3600)%Z →
  timeText (JS.of_integer n)
  = (JS.decimal ((n + 30) / 60) ++ " min")%string.
Proof.
  intros Hn.
  pose proof (all_from_spec _ _ _ n minutes_checked ltac:(lia)) as H.
  apply andb_prop in H as [H Hr]. apply andb_prop in H as [H60 H3600].
  apply negb_true_iff in H3600.
  unfold timeText. rewrite H3600, H60. cbv zeta.
  rewrite (rounded_number_text _ ((n + 30) / 60)); [reflexivity| |exact Hr].
  split; [apply Z.div_pos; lia | apply Z.div_le_upper_bound; lia].
Qed.


Lemma whole_hours n :
  (3600 <= n < 86400)%Z →
  timeText (JS.of_integer n)
  = (JS.decimal (n / 3600) ++ "h " ++ JS.decimal ((n mod 3600 + 30) / 60)
     ++ "m")%string.
Proof.
  intros Hn.
  pose proof (all_from_spec _ _ _ n hours_checked ltac:(lia)) as H.
  apply andb_prop in H as [H Hr]. apply andb_prop in H as [H Hx].
  apply andb_prop in H as [Hge Hf].
  destruct (Prim2SF (JS.of_integer n)) as [s|s| |s m e] eqn:E;
    try discriminate.
  destruct s; [discriminate|]. apply andb_prop in Hx as [He Hm].
  apply Z.leb_le in He. apply Z.eqb_eq in Hm.
  pose proof (Z.mod_pos_bound n 3600 ltac:(lia)) as Hmod.
  unfold timeText. rewrite Hge. cbv zeta.
  rewrite (remainder_3600 _ n m e E He Hm).
  rewrite (floored_text _ (n / 3600)), (rounded_number_text _ ((n mod 3600 + 30) / 60));
    [reflexivity| |exact Hr| |exact Hf];
    (split; [apply Z.div_pos; lia | apply Z.div_le_upper_bound; lia]).
Qed.





(** The minutes of [showRouteInfo] are rounded on their own and never
    carried into the next unit: on whole seconds of the second hour the text
    is "1h ", the minutes of the rest rounded half up, and "m", so that its
    last thirty seconds read "1h 60m"; and the last thirty whole seconds
    before one hour read "60 min". *)
Theorem minutes_not_carried :
  (∀ n, (3600 <= n < 7200)%Z →
        timeText (JS.of_integer n)
        = "1h " ++ JS.decimal ((n - 3600 + 30) / 60) ++ "m") ∧
  (∀ n, (7170 <= n < 7200)%Z → timeText (JS.of_integer n) = "1h 60m") ∧
  (∀ n, (3570 <= n < 3600)%Z → timeText (JS.of_integer n) = "60 min").
Proof.
  assert (Hh : ∀ n, (3600 <= n < 7200)%Z →
                    timeText (JS.of_integer n)
                    = "1h " ++ JS.decimal ((n - 3600 + 30) / 60) ++ "m").
  { intros n Hn. rewrite whole_hours by lia.
    replace (n / 3600)%Z with 1%Z
      by (apply Z.div_unique with (r := (n - 3600)%Z); lia).
    replace (n mod 3600)%Z with (n - 3600)%Z
      by (apply Z.mod_unique with (q := 1%Z); lia).
    reflexivity. }
  split; [exact Hh|]. split.
  - intros n Hn. rewrite Hh by lia.
    replace ((n - 3600 + 30) / 60)%Z with 60%Z
      by (apply Z.div_unique with (r := (n - 7170)%Z); lia).
    reflexivity.
  - intros n Hn. rewrite whole_minutes by lia.
    replace ((n + 30) / 60)%Z with 60%Z
      by (apply Z.div_unique with (r := (n - 3570)%Z); lia).
    reflexivity.
Qed.

Lemma minutes_not_carried_witness :
  timeText 7199 = "1h 60m" ∧ timeText 3599 = "60 min".
Proof.
  split.
  - apply (proj1 (proj2 minutes_not_carried) 7199%Z). lia.
  - apply (proj2 (proj2 minutes_not_carried) 3599%Z). lia.
Defined.

Local Close Scope float_scope.
